(** * Open Academy: courses and sessions

    A shallow embedding of [models/models.py]: the [Course] and [Session]
    models, their computed and inverse fields, the duplication routine and
    the validation constraints, followed by the properties proved of them.

    Conventions of the embedding.
    - A Python [float] is an IEEE 754 binary64 number: [spec_float] at
      precision 53 and maximal exponent 1024, with the correctly rounded
      operations of [SpecFloat].
    - A Python [int] is a [Z].
    - A raised exception is the [Raise] branch of [result].
    - A [Date] field holds [None] (Python [False]) or a calendar day, kept
      as its proleptic Gregorian ordinal ([date.toordinal()]).
    - A recordset is the list of its records; [for r in self] is [mapM],
      and the body of each loop is the function named [..._record].
    - A field assignment stores the value the method computes.  The
      conversions of the ORM are written where the methods rely on them: a
      datetime given to a [Date] field keeps its day, an int given to a
      [Float] field becomes a float.  The rounding of [duration] to its
      two declared decimals is applied by the persistence layer when it
      stores the value, and is left to that layer. *)

From Stdlib Require Import ZArith Lia Bool List String Ascii SpecFloat DecimalString.
From Stdlib Require DecimalPos DecimalZ.
From stdpp Require Import base option list gmap strings.

Local Open Scope Z_scope.

(** ** Exceptions *)

Inductive exception : Type :=
| ZeroDivisionError
| OverflowError
| ValueError
| TypeError
| ValidationError (msg : string)
| MissingError
| IntegrityError (constraint : string).

Inductive result (A : Type) : Type :=
| Ok (a : A)
| Raise (e : exception).
Arguments Ok {A} a.
Arguments Raise {A} e.

#[global] Instance result_ret : MRet result := fun A a => Ok a.
#[global] Instance result_bind : MBind result := fun A B f m =>
  match m with
  | Ok a => f a
  | Raise e => Raise e
  end.
#[global] Instance result_fmap : FMap result := fun A B f m =>
  match m with
  | Ok a => Ok (f a)
  | Raise e => Raise e
  end.

(** ** Floating-point numbers (binary64) *)

Module Float.

Definition prec : Z := 53.
Definition emax : Z := 1024.

Definition mul : spec_float -> spec_float -> spec_float := SFmul prec emax.
Definition div : spec_float -> spec_float -> spec_float := SFdiv prec emax.
Definition ltb : spec_float -> spec_float -> bool := SFltb.
Definition eqb : spec_float -> spec_float -> bool := SFeqb.

(** [float(z)]: the nearest binary64 number, ties to even. *)
Definition of_int (z : Z) : spec_float := binary_normalize prec emax z 0 false.

Definition zero : spec_float := S754_zero false.

(** [bool(x)] is [False] exactly for the two zeros. *)
Definition is_zero (x : spec_float) : bool :=
  match x with
  | S754_zero _ => true
  | _ => false
  end.

(** [x / y] on floats raises where IEEE 754 would return an infinity or a
    NaN for a zero divisor. *)
Definition truediv (x y : spec_float) : result spec_float :=
  if is_zero y then Raise ZeroDivisionError else Ok (div x y).

End Float.

(** ** Calendar days, datetimes and timedeltas

    A [datetime] is kept as the number of microseconds since midnight of
    ordinal 0 and a [timedelta] as its total number of microseconds, so
    that [timedelta.days] is the floor quotient by the length of a day. *)

Module Datetime.

Definition date : Type := Z.
Definition datetime : Type := Z.
Definition timedelta : Type := Z.

(** 0001-01-01 and 9999-12-31. *)
Definition MINORDINAL : Z := 1.
Definition MAXORDINAL : Z := 3652059.
Definition MAXDAYS : Z := 999999999.

Definition us_per_second : Z := 1000000.
Definition us_per_day : Z := 86400 * us_per_second.

(** [date.weekday()]: Monday is 0 and Sunday is 6. *)
Definition weekday (d : date) : Z := (d + 6) mod 7.

(** [fields.Datetime.from_string]: a date string is read as midnight of
    that day, a false value as [None]. *)
Definition from_string (value : option date) : option datetime :=
  match value with
  | Some d => Some (d * us_per_day)
  | None => None
  end.

Definition date_of (dt : datetime) : date := dt / us_per_day.

(** [n / d] rounded to the nearest integer, ties to even ([0 <= n], [0 < d]). *)
Definition round_half_even (n d : Z) : Z :=
  let q := n / d in
  match 2 * (n mod d) ?= d with
  | Lt => q
  | Gt => q + 1
  | Eq => if Z.even q then q else q + 1
  end.

(** The microseconds of a float number of days, rounded to the nearest
    microsecond. *)
Definition us_of_days (x : spec_float) : result Z :=
  match x with
  | S754_nan => Raise ValueError
  | S754_infinity _ => Raise OverflowError
  | S754_zero _ => Ok 0
  | S754_finite s m e =>
      let mag :=
        match e with
        | Zneg p => round_half_even (Zpos m * us_per_day) (2 ^ Zpos p)
        | _ => Zpos m * 2 ^ e * us_per_day
        end in
      Ok (if s then - mag else mag)
  end.

Definition days (td : timedelta) : Z := td / us_per_day.

(** [timedelta(days=x, seconds=s)] for a float [x] and an int [s]. *)
Definition mk_timedelta (x : spec_float) (s : Z) : result timedelta :=
  us ← us_of_days x;
  let td := us + s * us_per_second in
  if (Z.abs (days td) >? MAXDAYS) then Raise OverflowError else Ok td.

(** [dt + td]; [None + td] is a [TypeError]. *)
Definition add (dt : option datetime) (td : timedelta) : result datetime :=
  match dt with
  | None => Raise TypeError
  | Some t =>
      let r := t + td in
      if (MINORDINAL <=? date_of r) && (date_of r <=? MAXORDINAL)
      then Ok r else Raise OverflowError
  end.

(** [a - b] on datetimes. *)
Definition sub (a b : option datetime) : result timedelta :=
  match a, b with
  | Some x, Some y => Ok (x - y)
  | _, _ => Raise TypeError
  end.

End Datetime.

(** The ordinal of a calendar day, as [date(y, m, d).toordinal()]. *)
Module Calendar.

Definition is_leap (y : Z) : bool :=
  (y mod 4 =? 0) && (negb (y mod 100 =? 0) || (y mod 400 =? 0)).

Definition days_before_year (y : Z) : Z :=
  let p := y - 1 in p * 365 + p / 4 - p / 100 + p / 400.

Definition days_in_month (y m : Z) : Z :=
  if m =? 2 then (if is_leap y then 29 else 28)
  else if (m =? 4) || (m =? 6) || (m =? 9) || (m =? 11) then 30 else 31.

Definition days_before_month (y m : Z) : Z :=
  fold_right Z.add 0 (map (days_in_month y) (map Z.of_nat (seq 1 (Z.to_nat (m - 1))))).

Definition ymd2ord (y m d : Z) : Datetime.date :=
  days_before_year y + days_before_month y m + d.

End Calendar.

(** ** The Session model *)

Module Session.

Definition partner : Type := positive.

(** One record of [openacademy.session]: the stored fields and the cache
    of the computed ones. *)
Record session : Type := mk {
  name : string;
  start_date : option Datetime.date;
  duration : spec_float;
  seats : Z;
  active : bool;
  color : Z;
  instructor_id : option partner;
  course_id : positive;
  attendee_ids : list partner;
  taken_seats : spec_float;
  end_date : option Datetime.date;
  hours : spec_float;
  attendees_count : Z
}.

(** Field assignments [r.f = v]. *)
Definition with_taken_seats (v : spec_float) (r : session) : session :=
  mk (name r) (start_date r) (duration r) (seats r) (active r) (color r)
     (instructor_id r) (course_id r) (attendee_ids r)
     v (end_date r) (hours r) (attendees_count r).

Definition with_end_date (v : option Datetime.date) (r : session) : session :=
  mk (name r) (start_date r) (duration r) (seats r) (active r) (color r)
     (instructor_id r) (course_id r) (attendee_ids r)
     (taken_seats r) v (hours r) (attendees_count r).

Definition with_duration (v : spec_float) (r : session) : session :=
  mk (name r) (start_date r) v (seats r) (active r) (color r)
     (instructor_id r) (course_id r) (attendee_ids r)
     (taken_seats r) (end_date r) (hours r) (attendees_count r).

Definition with_hours (v : spec_float) (r : session) : session :=
  mk (name r) (start_date r) (duration r) (seats r) (active r) (color r)
     (instructor_id r) (course_id r) (attendee_ids r)
     (taken_seats r) (end_date r) v (attendees_count r).

Definition with_attendees_count (v : Z) (r : session) : session :=
  mk (name r) (start_date r) (duration r) (seats r) (active r) (color r)
     (instructor_id r) (course_id r) (attendee_ids r)
     (taken_seats r) (end_date r) (hours r) v.

Definition with_instructor_id (v : option partner) (r : session) : session :=
  mk (name r) (start_date r) (duration r) (seats r) (active r) (color r)
     v (course_id r) (attendee_ids r)
     (taken_seats r) (end_date r) (hours r) (attendees_count r).

Definition with_attendee_ids (v : list partner) (r : session) : session :=
  mk (name r) (start_date r) (duration r) (seats r) (active r) (color r)
     (instructor_id r) (course_id r) v
     (taken_seats r) (end_date r) (hours r) (attendees_count r).

Definition with_name (v : string) (r : session) : session :=
  mk v (start_date r) (duration r) (seats r) (active r) (color r)
     (instructor_id r) (course_id r) (attendee_ids r)
     (taken_seats r) (end_date r) (hours r) (attendees_count r).

Definition with_start_date (v : option Datetime.date) (r : session) : session :=
  mk (name r) v (duration r) (seats r) (active r) (color r)
     (instructor_id r) (course_id r) (attendee_ids r)
     (taken_seats r) (end_date r) (hours r) (attendees_count r).

Definition with_seats (v : Z) (r : session) : session :=
  mk (name r) (start_date r) (duration r) v (active r) (color r)
     (instructor_id r) (course_id r) (attendee_ids r)
     (taken_seats r) (end_date r) (hours r) (attendees_count r).

(** [len(recordset)]. *)
Definition len {A} (l : list A) : Z := Z.of_nat (length l).

(** Truth value of a [Date] field. *)
Definition truthy {A} (v : option A) : bool :=
  match v with Some _ => true | None => false end.

(** *** [_taken_seats] *)

Definition _taken_seats_record (record : session) : result session :=
  if seats record =? 0 then
    Ok (with_taken_seats Float.zero record)
  else
    v ← Float.truediv
           (Float.mul (Float.of_int 100) (Float.of_int (len (attendee_ids record))))
           (Float.of_int (seats record));
    Ok (with_taken_seats v record).

Definition _taken_seats (self : list session) : result (list session) :=
  mapM _taken_seats_record self.

(** *** [_verify_valid_seats]

    The [onchange] handler of a form: it is given the one record being
    edited and answers with a warning, or with nothing. *)

Record warning : Type := mk_warning {
  title : string;
  message : string
}.

Definition _verify_valid_seats (self : session) : option warning :=
  if seats self <? 0 then
    Some (mk_warning "Incorrect 'seats' value"
                     "The number of available seats may not be negative")
  else if seats self <? len (attendee_ids self) then
    Some (mk_warning "Too many attendees"
                     "Increase seats or remove excess attendees")
  else None.

(** *** [_get_end_date] and [_set_end_date] *)

Definition _get_end_date_record (r : session) : result session :=
  if negb (truthy (start_date r) && negb (Float.is_zero (duration r))) then
    Ok (with_end_date (start_date r) r)
  else
    let start := Datetime.from_string (start_date r) in
    duration ← Datetime.mk_timedelta (duration r) (-1);
    e ← Datetime.add start duration;
    (* a [Date] field keeps the day of the datetime it is given *)
    Ok (with_end_date (Some (Datetime.date_of e)) r).

Definition _get_end_date (self : list session) : result (list session) :=
  mapM _get_end_date_record self.

Definition _set_end_date_record (r : session) : result session :=
  if negb (truthy (start_date r) && truthy (end_date r)) then
    Ok r
  else
    let start_date := Datetime.from_string (start_date r) in
    let end_date := Datetime.from_string (end_date r) in
    d ← Datetime.sub end_date start_date;
    (* a [Float] field converts the int it is given *)
    Ok (with_duration (Float.of_int (Datetime.days d + 1)) r).

Definition _set_end_date (self : list session) : result (list session) :=
  mapM _set_end_date_record self.

(** *** [_get_hours] and [_set_hours] *)

Definition _get_hours_record (r : session) : session :=
  with_hours (Float.mul (duration r) (Float.of_int 24)) r.

Definition _get_hours (self : list session) : list session :=
  map _get_hours_record self.

Definition _set_hours_record (r : session) : result session :=
  v ← Float.truediv (hours r) (Float.of_int 24);
  Ok (with_duration v r).

Definition _set_hours (self : list session) : result (list session) :=
  mapM _set_hours_record self.

(** *** [_get_attendees_count] *)

Definition _get_attendees_count_record (r : session) : session :=
  with_attendees_count (len (attendee_ids r)) r.

Definition _get_attendees_count (self : list session) : list session :=
  map _get_attendees_count_record self.

(** *** [_check_instructor_not_in_attendees] *)

Definition instructor_message : string :=
  "A session's instructor can't be an attendee".

Definition _check_instructor_not_in_attendees_record (r : session) : result unit :=
  if truthy (instructor_id r)
     && match instructor_id r with
        | Some i => bool_decide (i ∈ attendee_ids r)
        | None => false
        end
  then Raise (ValidationError instructor_message)
  else Ok tt.

Definition _check_instructor_not_in_attendees (self : list session) : result unit :=
  _ ← mapM _check_instructor_not_in_attendees_record self; Ok tt.

End Session.

(** ** Writes on sessions

    A write assigns the given fields, then runs the constraint methods
    whose [@api.constrains] fields are among them.  The request runs in
    one transaction: it commits the new state, or reports the error and
    leaves the committed state as it was. *)

Module Transaction.

Import Session.
Local Open Scope string_scope.

(** The [vals] of a write; a field left out is [None]. *)
Record vals : Type := mk_vals {
  v_name : option string;
  v_start_date : option (option Datetime.date);
  v_duration : option spec_float;
  v_seats : option Z;
  v_instructor_id : option (option partner);
  v_attendee_ids : option (list partner)
}.

Definition key {A} (k : string) (v : option A) : list string :=
  match v with Some _ => [k] | None => [] end.

Definition keys (v : vals) : list string :=
  (key "name" (v_name v) ++ key "start_date" (v_start_date v)
   ++ key "duration" (v_duration v) ++ key "seats" (v_seats v)
   ++ key "instructor_id" (v_instructor_id v)
   ++ key "attendee_ids" (v_attendee_ids v))%list.

Definition assign_field {A} (set : A -> session -> session) (v : option A)
    (r : session) : session :=
  match v with Some x => set x r | None => r end.

Definition assign (v : vals) (r : session) : session :=
  assign_field with_attendee_ids (v_attendee_ids v)
    (assign_field with_instructor_id (v_instructor_id v)
      (assign_field with_seats (v_seats v)
        (assign_field with_duration (v_duration v)
          (assign_field with_start_date (v_start_date v)
            (assign_field with_name (v_name v) r))))).

(** [@api.constrains('instructor_id', 'attendee_ids')]. *)
Definition constrains : list string := ["instructor_id"; "attendee_ids"].

Definition write (r : session) (v : vals) : result session :=
  let r' := assign v r in
  if existsb (fun k => bool_decide (k ∈ constrains)) (keys v) then
    _ ← _check_instructor_not_in_attendees [r']; Ok r'
  else Ok r'.

Definition commit_write (db : gmap positive session) (i : positive) (v : vals)
    : gmap positive session * option exception :=
  match db !! i with
  | None => (db, Some MissingError)
  | Some r =>
      match write r v with
      | Ok r' => (<[i := r']> db, None)
      | Raise e => (db, Some e)
      end
  end.

End Transaction.

(** ** The storage layer: SQL [LIKE] and table constraints *)

Module Sql.

Local Open Scope char_scope.

(** PostgreSQL's [s LIKE pattern] with the default escape character: [%] stands for
    any run of characters, [_] for any one character, and a backslash
    makes the next pattern character literal.  The comparison is
    case-sensitive.  (A pattern that ends in a lone backslash is an
    error in PostgreSQL; it matches nothing here.) *)
Fixpoint like (pattern : string) : string -> bool :=
  match pattern with
  | EmptyString =>
      fun s => match s with EmptyString => true | String _ _ => false end
  | String c p =>
      if Ascii.eqb c "%" then
        fix any (s : string) : bool :=
          like p s
          || match s with EmptyString => false | String _ s' => any s' end
      else if Ascii.eqb c "_" then
        fun s => match s with EmptyString => false | String _ s' => like p s' end
      else if Ascii.eqb c "\" then
        match p with
        | EmptyString => fun _ => false
        | String c' p' =>
            fun s =>
              match s with
              | EmptyString => false
              | String a s' => Ascii.eqb a c' && like p' s'
              end
        end
      else
        fun s =>
          match s with
          | EmptyString => false
          | String a s' => Ascii.eqb a c && like p s'
          end
  end.

(** The definitions of [_sql_constraints] entries. *)
Inductive definition : Type :=
| CHECK_ne (column1 column2 : string)
| UNIQUE (column : string).

(** Is [CHECK(a != b)] false?  A comparison with NULL is unknown, and
    an unknown check passes. *)
Definition check_ne_fails (a b : option string) : bool :=
  match a, b with
  | Some x, Some y => String.eqb x y
  | _, _ => false
  end.

(** Does the value [a] clash with a value [b] of another row under
    [UNIQUE]?  NULLs never clash. *)
Definition unique_clash (a b : option string) : bool :=
  match a, b with
  | Some x, Some y => String.eqb x y
  | _, _ => false
  end.

End Sql.

(** ** The Course model *)

Module Course.

Local Open Scope string_scope.

(** One row of [openacademy.course].  [session_ids] is the inverse of
    [Session.course_id] and holds nothing of its own. *)
Record course : Type := mk {
  id : positive;
  name : string;
  description : option string;
  responsible_id : option positive
}.

(** Values of a [default] or [vals] dictionary. *)
Inductive value : Type :=
| VStr (s : string)
| VId (i : positive)
| VFalse.

Definition as_text (v : value) : option string :=
  match v with VStr s => Some s | _ => None end.

Definition as_id (v : value) : option positive :=
  match v with VId i => Some i | _ => None end.

Definition column (c : course) (col : string) : option string :=
  if String.eqb col "name" then Some (name c)
  else if String.eqb col "description" then description c
  else None.

Definition _sql_constraints : list (string * Sql.definition * string) :=
  [ ("name_description_check",
     Sql.CHECK_ne "name" "description",
     "The title of the course should not be the description");
    ("name_unique",
     Sql.UNIQUE "name",
     "The course title must be unique") ].

(** Does the row [c] break the constraint next to the rows [others]? *)
Definition violates (others : list course) (c : course)
    (k : string * Sql.definition * string) : bool :=
  match k.1.2 with
  | Sql.CHECK_ne a b => Sql.check_ne_fails (column c a) (column c b)
  | Sql.UNIQUE a =>
      existsb (fun o => Sql.unique_clash (column c a) (column o a)) others
  end.

(** The check the database makes of a row it is about to commit: the
    first constraint of [_sql_constraints] the row breaks is reported. *)
Definition check_constraints (others : list course) (c : course) : result unit :=
  match List.find (violates others c) _sql_constraints with
  | Some k => Raise (IntegrityError k.1.1)
  | None => Ok tt
  end.

Definition fresh_id (rows : list course) : positive :=
  Pos.succ (fold_right Pos.max 1%positive (map id rows)).

(** The ORM's [create(vals)]: [name] is required, the new row gets a
    fresh id and must pass the constraints. *)
Definition create (rows : list course) (vals : gmap string value)
    : result (list course * course) :=
  match vals !! "name" ≫= as_text with
  | None => Raise (IntegrityError "name_not_null")
  | Some n =>
      let c := mk (fresh_id rows) n
                  (vals !! "description" ≫= as_text)
                  (vals !! "responsible_id" ≫= as_id) in
      _ ← check_constraints rows c;
      Ok ((rows ++ [c])%list, c)
  end.

(** The ORM's [write(vals)] on the row [i]: the row as updated must pass
    the constraints next to the other rows. *)
Definition write (rows : list course) (i : positive) (vals : gmap string value)
    : result (list course) :=
  match List.find (fun c => Pos.eqb (id c) i) rows with
  | None => Raise MissingError
  | Some old =>
      match from_option (fun v => as_text v) (Some (name old)) (vals !! "name") with
      | None => Raise (IntegrityError "name_not_null")
      | Some n =>
          let c := mk i n
                      (from_option as_text (description old) (vals !! "description"))
                      (from_option as_id (responsible_id old) (vals !! "responsible_id")) in
          let others := List.filter (fun o => negb (Pos.eqb (id o) i)) rows in
          _ ← check_constraints others c;
          Ok (map (fun o => if Pos.eqb (id o) i then c else o) rows)
      end
  end.

(** The ORM's [unlink()]. *)
Definition unlink (rows : list course) (i : positive) : list course :=
  List.filter (fun o => negb (Pos.eqb (id o) i)) rows.

(** The values of a row, as [copy_data] reads them. *)
Definition read (c : course) : gmap string value :=
  <["name" := VStr (name c)]>
    (<["description" := from_option VStr VFalse (description c)]>
       (<["responsible_id" := from_option VId VFalse (responsible_id c)]> ∅)).

(** The inherited [copy], called as [super(Course, self).copy(default)]:
    the values of the row, overridden by [default], make a new row. *)
Definition base_copy (rows : list course) (self : course)
    (default : gmap string value) : result (list course * course) :=
  create rows (default ∪ read self).

(** A search domain is a conjunction of conditions on columns; the
    operator ['=like'] is SQL [LIKE] on the pattern as it is given (the
    [%] that ends the pattern of [copy] is its wildcard). *)
Inductive operator : Type := eq_like.

Definition leaf_holds (c : course) (l : string * operator * string) : bool :=
  match l.1.2 with
  | eq_like =>
      match column c l.1.1 with
      | Some x => Sql.like l.2 x
      | None => false
      end
  end.

Definition search_count (rows : list course)
    (domain : list (string * operator * string)) : Z :=
  Z.of_nat (length (List.filter (fun c => forallb (leaf_holds c) domain) rows)).

(** [str(n)] of an int. *)
Definition str (n : Z) : string := NilZero.string_of_int (Z.to_int n).

(** [copy(self, default=None)]. *)
Definition copy (rows : list course) (self : course)
    (default : option (gmap string value)) : result (list course * course) :=
  let default := from_option (fun d => d) ∅ default in
  let copied_count :=
    search_count rows [("name", eq_like, "Copy of " ++ name self ++ "%")] in
  let new_name :=
    if (copied_count =? 0)%Z then
      "Copy of " ++ name self
    else
      "Copy of " ++ name self ++ " (" ++ str copied_count ++ ")" in
  let default := <["name" := VStr new_name]> default in
  base_copy rows self default.

End Course.

(** ** Requests on the Course table

    Each request is one transaction: its effect is committed, or it fails
    and the table stays as it was. *)

Module Table.

Import Course.

Inductive request : Type :=
| ReqCreate (vals : gmap string value)
| ReqWrite (i : positive) (vals : gmap string value)
| ReqCopy (i : positive) (default : option (gmap string value))
| ReqUnlink (i : positive).

Definition execute (rows : list course) (q : request) : result (list course) :=
  match q with
  | ReqCreate vals => fst <$> create rows vals
  | ReqWrite i vals => write rows i vals
  | ReqCopy i default =>
      match List.find (fun c => Pos.eqb (id c) i) rows with
      | Some self => fst <$> copy rows self default
      | None => Raise MissingError
      end
  | ReqUnlink i => Ok (unlink rows i)
  end.

Definition commit (rows : list course) (q : request) : list course :=
  match execute rows q with
  | Ok rows' => rows'
  | Raise _ => rows
  end.

(** The table after a sequence of requests on an empty one. *)
Definition history (qs : list request) : list course := fold_left commit qs [].

End Table.

(** * Statements

    The predicates, round trips and sample records the properties below
    are stated with. *)

Import Float Session Transaction Course Table.

(** A float with sign [s] and magnitude at least [2 ^ (lo - 1)]. *)
Definition big (lo : Z) (s : bool) (x : spec_float) : Prop :=
  match x with
  | S754_finite s' m e => s' = s /\ lo <= Zpos (digits2_pos m) + e
  | S754_infinity s' => s' = s
  | _ => False
  end.

(** The least value of an [Integer] field (a 32-bit column). *)
Definition int4_min : Z := - 2 ^ 31.

(** The days a [Date] field can hold. *)
Definition in_calendar (d : Datetime.date) : Prop :=
  Datetime.MINORDINAL <= d <= Datetime.MAXORDINAL.

(** Set [duration], read the computed [end_date], write it back through
    the inverse, and read [duration]. *)
Definition end_date_round_trip (r : session) (d : spec_float) : result spec_float :=
  r1 ← _get_end_date_record (with_duration d r);
  r2 ← _set_end_date_record r1;
  Ok (duration r2).

(** Write [hours] through the inverse and read the recomputed [hours]. *)
Definition hours_round_trip (r : session) (h : spec_float) : result spec_float :=
  r' ← _set_hours_record (with_hours h r);
  Ok (hours (_get_hours_record r')).

(** Set [duration], read the computed [hours], write them back through
    the inverse, and read [duration]. *)
Definition duration_round_trip (r : session) (d : spec_float) : result spec_float :=
  r' ← _set_hours_record (_get_hours_record (with_duration d r));
  Ok (duration r').

(** A session that starts on Monday 2019-01-07. *)
Definition session0 : session :=
  Session.mk "Algebra, week 2" (Some (Calendar.ymd2ord 2019 1 7)) zero 10 true 0
    None 1%positive [] zero None zero 0.

(** A session with two attendees and a negative number of seats. *)
Definition negative_seats : session :=
  Session.mk "Geometry" (Some (Calendar.ymd2ord 2019 1 7)) zero (-4) true 0
    None 1%positive [2%positive; 3%positive] zero None zero 0.

(** A session with two attendees and no instructor yet, and the write that
    makes one of them the instructor. *)
Definition roster : session :=
  Session.mk "Algebra, week 3" (Some (Calendar.ymd2ord 2019 1 14)) (of_int 5) 10 true 0
    None 1%positive [7%positive; 8%positive] zero None zero 0.

Definition set_instructor (x : partner) : vals :=
  mk_vals None None None None (Some (Some x)) None.

(** The parts of [copy]: the count it takes of the copies there are
    already, the name it gives to the duplicate, and the [default]
    dictionary it hands to the inherited routine. *)
Definition copied_count (rows : list course) (self : course) : Z :=
  search_count rows [("name", eq_like, ("Copy of " ++ Course.name self ++ "%")%string)].

Definition copy_name (rows : list course) (self : course) : string :=
  if (copied_count rows self =? 0)%Z then
    ("Copy of " ++ Course.name self)%string
  else
    ("Copy of " ++ Course.name self ++ " (" ++ str (copied_count rows self) ++ ")")%string.

Definition copy_default (rows : list course) (self : course)
    (default : option (gmap string value)) : gmap string value :=
  <["name" := VStr (copy_name rows self)]> (from_option (fun d => d) ∅ default).

(** The count the specification describes: the rows whose name begins with
    the very characters of ["Copy of " ++ name]. *)
Definition literal_prefix_count (rows : list course) (nm : string) : Z :=
  Z.of_nat
    (length (List.filter (fun c => String.prefix ("Copy of " ++ nm) (Course.name c)) rows)).

Definition is_wildcard (c : ascii) : bool :=
  (Ascii.eqb c "%" || Ascii.eqb c "_" || Ascii.eqb c "\")%char.

Fixpoint wildcard_free (s : string) : bool :=
  match s with
  | EmptyString => true
  | String c s' => negb (is_wildcard c) && wildcard_free s'
  end.

Definition unit_courses : list course :=
  [ Course.mk 1 "Unit 1" None None;
    Course.mk 2 "Unit_1" None None;
    Course.mk 3 "Copy of Unit 1" None None ].

(** The invariant of the Course table. *)
Definition consistent (rows : list course) : Prop :=
  NoDup (map Course.id rows) /\ NoDup (map Course.name rows) /\
  forall c, In c rows -> description c <> Some (Course.name c).

(** More sample records: a write of [seats] alone, a session whose two
    seats are taken, a table with one course, and a course with a copy of
    it made with another description. *)
Definition set_seats (n : Z) : vals := mk_vals None None None (Some n) None None.

Definition full_house : session :=
  Session.mk "Analysis" (Some (Calendar.ymd2ord 2019 1 7)) (of_int 1) 2 true 0
    None 1%positive [2%positive; 3%positive] zero None zero 0.

Definition algebra_courses : list course :=
  [ Course.mk 1 "Algebra" (Some "Groups and rings"%string) None ].

Definition intro_course : course :=
  Course.mk 1 "Intro" (Some "An introduction"%string) None.

Definition intro_copy : course :=
  Course.mk 2 "Copy of Intro" (Some "Short"%string) None.

(** What the constraint on sessions asks of a record. *)
Definition instructor_apart (r : session) : Prop :=
  forall x, instructor_id r = Some x -> x ∉ attendee_ids r.

(** Write [hours] through the inverse, then read the recomputed
    [end_date]. *)
Definition end_date_after_hours (r : session) (h : spec_float) : result (option Datetime.date) :=
  r1 ← _set_hours_record (with_hours h r);
  r2 ← _get_end_date_record r1;
  Ok (end_date r2).

(** The title of the [j]-th copy of a course named [n], counting from 0. *)
Definition copy_title (n : string) (j : nat) : string :=
  match j with
  | O => ("Copy of " ++ n)%string
  | S _ => ("Copy of " ++ n ++ " (" ++ str (Z.of_nat j) ++ ")")%string
  end.

(** [k] copies of [self] in a row. *)
Fixpoint copy_times (k : nat) (rows : list course) (self : course)
    : result (list course) :=
  match k with
  | O => Ok rows
  | S k' => rows' ← copy_times k' rows self; fst <$> copy rows' self None
  end.

Fixpoint no_backslash (s : string) : bool :=
  match s with
  | EmptyString => true
  | String c s' => negb (Ascii.eqb c "\")%char && no_backslash s'
  end.

(** * Facts about binary64 arithmetic

    [SpecFloat] defines the operations; what follows is what the
    properties of the models need of them: rounding keeps the sign and
    never loses magnitude, and whole numbers of at most 53 bits are
    converted, multiplied and divided exactly. *)

Local Open Scope Z_scope.

Lemma digits2_pos_size (p : positive) : digits2_pos p = Pos.size p.
Proof. induction p; simpl; congruence. Qed.

Lemma Zdigits2_log2 (m : Z) : 0 < m -> Zdigits2 m = Z.log2 m + 1.
Proof.
  destruct m as [|p|p]; try lia. intros _. simpl.
  rewrite digits2_pos_size. destruct p; simpl; lia.
Qed.

Lemma Zdigits2_bounds (m : Z) :
  0 < m -> 2 ^ (Zdigits2 m - 1) <= m < 2 ^ Zdigits2 m.
Proof.
  intros H. rewrite Zdigits2_log2 by done.
  replace (Z.log2 m + 1 - 1) with (Z.log2 m) by lia.
  apply Z.log2_spec in H. replace (Z.log2 m + 1) with (Z.succ (Z.log2 m)) by lia. done.
Qed.

Lemma Zdigits2_pos (m : Z) : 0 < m -> 0 < Zdigits2 m.
Proof. intros H. rewrite Zdigits2_log2 by done. pose proof (Z.log2_nonneg m). lia. Qed.

Lemma Zdigits2_unique (m d : Z) :
  2 ^ (d - 1) <= m < 2 ^ d -> 0 < m -> Zdigits2 m = d.
Proof.
  intros H Hm. rewrite Zdigits2_log2 by done.
  assert (0 < d).
  { destruct (Z.lt_trichotomy d 0) as [Hd|[Hd|Hd]]; try done.
    - rewrite (Z.pow_neg_r 2 d) in H by done. lia.
    - subst. simpl in H. lia. }
  assert (Z.log2 m = d - 1); [|lia].
  apply Z.log2_unique; [lia|]. replace (Z.succ (d - 1)) with d by lia. done.
Qed.

Lemma Zdigits2_ge (m d : Z) : 0 < m -> 2 ^ (d - 1) <= m -> d <= Zdigits2 m.
Proof.
  intros Hm H. destruct (Z.le_gt_cases d (Zdigits2 m)) as [|Hlt]; [done|].
  pose proof (Zdigits2_bounds m Hm) as [_ Hub].
  assert (2 ^ Zdigits2 m <= 2 ^ (d - 1)) by (apply Z.pow_le_mono_r; lia).
  lia.
Qed.

Lemma Zdigits2_le (m d : Z) : 0 < m -> m < 2 ^ d -> Zdigits2 m <= d.
Proof.
  intros Hm H. destruct (Z.le_gt_cases (Zdigits2 m) d) as [|Hlt]; [done|].
  pose proof (Zdigits2_bounds m Hm) as [Hlb _].
  assert (2 ^ d <= 2 ^ (Zdigits2 m - 1)) by (apply Z.pow_le_mono_r; lia).
  lia.
Qed.

Lemma shr_1_m (mrs : shr_record) :
  0 <= shr_m mrs -> shr_m (shr_1 mrs) = shr_m mrs / 2.
Proof.
  destruct mrs as [m r s]. simpl. intros Hm.
  destruct m as [|[p|p|]|p]; try lia; simpl shr_m.
  - reflexivity.
  - rewrite Pos2Z.inj_xI. apply Z.div_unique with (r := 1); lia.
  - rewrite Pos2Z.inj_xO. apply Z.div_unique with (r := 0); lia.
  - reflexivity.
Qed.

Lemma pow2_xO (p : positive) : 2 ^ Zpos p~0 = 2 ^ Zpos p * 2 ^ Zpos p.
Proof.
  replace (Zpos p~0) with (Zpos p + Zpos p) by lia.
  apply Z.pow_add_r; lia.
Qed.

Lemma pow2_xI (p : positive) : 2 ^ Zpos p~1 = 2 * (2 ^ Zpos p * 2 ^ Zpos p).
Proof.
  replace (Zpos p~1) with (1 + (Zpos p + Zpos p)) by lia.
  rewrite Z.pow_add_r, Z.pow_add_r by lia. reflexivity.
Qed.

Lemma iter_shr_1_m (p : positive) (mrs : shr_record) :
  0 <= shr_m mrs ->
  shr_m (SpecFloat.iter_pos shr_1 p mrs) = shr_m mrs / 2 ^ Zpos p.
Proof.
  revert mrs. induction p as [p IH|p IH|]; intros mrs Hm; simpl SpecFloat.iter_pos.
  - assert (H1 : 0 <= shr_m (shr_1 mrs)).
    { rewrite shr_1_m by done. apply Z.div_pos; lia. }
    assert (H2 : 0 <= shr_m (SpecFloat.iter_pos shr_1 p (shr_1 mrs))).
    { rewrite IH by done. apply Z.div_pos; lia. }
    rewrite IH, IH, shr_1_m by done.
    rewrite !Z.div_div by lia. rewrite pow2_xI. reflexivity.
  - assert (H2 : 0 <= shr_m (SpecFloat.iter_pos shr_1 p mrs)).
    { rewrite IH by done. apply Z.div_pos; lia. }
    rewrite IH, IH by done.
    rewrite !Z.div_div by lia. rewrite pow2_xO. reflexivity.
  - rewrite shr_1_m by done. reflexivity.
Qed.

Lemma shr_m_of_loc (m : Z) (l : location) : shr_m (shr_record_of_loc m l) = m.
Proof. destruct l as [|[]]; reflexivity. Qed.

(** The mantissa and exponent after [shr]. *)
Lemma shr_spec (mrs : shr_record) (e n : Z) :
  0 <= shr_m mrs ->
  shr_m (fst (shr mrs e n)) = shr_m mrs / 2 ^ Z.max n 0 /\
  snd (shr mrs e n) = e + Z.max n 0.
Proof.
  intros Hm. destruct n as [|p|p]; simpl.
  - rewrite Z.div_1_r. lia.
  - rewrite iter_shr_1_m by done. split; [reflexivity|lia].
  - rewrite Z.div_1_r. lia.
Qed.

Lemma fexp_lt (x : Z) : emin prec emax < x -> fexp prec emax x < x.
Proof. unfold fexp, emin, prec, emax. lia. Qed.

(** Dropping fewer bits than a number has keeps it positive and
    lowers its digit count by as much. *)
Lemma Zdigits2_div_pow2 (m k : Z) :
  0 < m -> 0 <= k < Zdigits2 m ->
  0 < m / 2 ^ k /\ Zdigits2 (m / 2 ^ k) = Zdigits2 m - k.
Proof.
  intros Hm Hk.
  pose proof (Zdigits2_bounds m Hm) as [Hlo Hhi].
  assert (Hp : 0 < 2 ^ k) by (apply Z.pow_pos_nonneg; lia).
  assert (H1 : 2 ^ (Zdigits2 m - k - 1) <= m / 2 ^ k).
  { apply Z.div_le_lower_bound; [done|].
    rewrite <- Z.pow_add_r by lia.
    replace (k + (Zdigits2 m - k - 1)) with (Zdigits2 m - 1) by lia. done. }
  assert (H2 : m / 2 ^ k < 2 ^ (Zdigits2 m - k)).
  { apply Z.div_lt_upper_bound; [done|].
    rewrite <- Z.pow_add_r by lia.
    replace (k + (Zdigits2 m - k)) with (Zdigits2 m) by lia. done. }
  assert (H3 : 0 < 2 ^ (Zdigits2 m - k - 1)) by (apply Z.pow_pos_nonneg; lia).
  split; [lia|].
  apply Zdigits2_unique; [|lia]. split; [|done].
  replace (Zdigits2 m - k - 1) with (Zdigits2 m - k - 1) in H1 by lia. done.
Qed.

(** One [shr_fexp] step keeps a mantissa positive and its magnitude. *)
Lemma shr_fexp_spec (m e : Z) (l : location) :
  0 < m -> emin prec emax < Zdigits2 m + e ->
  let '(mrs, e') := shr_fexp prec emax m e l in
  0 < shr_m mrs /\ Zdigits2 (shr_m mrs) + e' = Zdigits2 m + e.
Proof.
  intros Hm Hmag. unfold shr_fexp.
  pose proof (shr_spec (shr_record_of_loc m l) e
                (fexp prec emax (Zdigits2 m + e) - e)) as Hs.
  rewrite shr_m_of_loc in Hs. destruct Hs as [Hs1 Hs2]; [lia|].
  destruct (shr _ _ _) as [mrs e']. simpl in Hs1, Hs2.
  pose proof (fexp_lt _ Hmag).
  pose proof (Zdigits2_pos m Hm).
  destruct (Zdigits2_div_pow2 m (Z.max (fexp prec emax (Zdigits2 m + e) - e) 0) Hm)
    as [Hq Hd]; [lia|].
  rewrite Hs1, Hs2. split; [done|]. rewrite Hd. lia.
Qed.

Lemma Zdigits2_mono (a b : Z) : 0 < a -> a <= b -> Zdigits2 a <= Zdigits2 b.
Proof.
  intros Ha Hab. apply Zdigits2_ge; [lia|].
  pose proof (Zdigits2_bounds a Ha). lia.
Qed.

Lemma round_nearest_even_bounds (m : Z) (l : location) :
  m <= round_nearest_even m l <= m + 1.
Proof. destruct l as [|[]]; simpl; try lia. destruct (Z.even m); lia. Qed.

(** Rounding a nonzero value above the subnormal threshold never yields
    a zero, nor a smaller magnitude, nor the other sign. *)
Lemma binary_round_aux_big (s : bool) (m e : Z) (l : location) (lo : Z) :
  0 < m -> emin prec emax < Zdigits2 m + e -> lo <= Zdigits2 m + e ->
  big lo s (binary_round_aux prec emax s m e l).
Proof.
  intros Hm Hmag Hlo. unfold binary_round_aux.
  pose proof (shr_fexp_spec m e l Hm Hmag) as H1.
  destruct (shr_fexp prec emax m e l) as [mrs' e'].
  destruct H1 as [Hm1 Hd1].
  pose proof (round_nearest_even_bounds (shr_m mrs') (loc_of_shr_record mrs')) as Hr.
  set (m2 := round_nearest_even (shr_m mrs') (loc_of_shr_record mrs')) in *.
  assert (Hm2 : 0 < m2) by lia.
  assert (Hd2 : Zdigits2 (shr_m mrs') <= Zdigits2 m2) by (apply Zdigits2_mono; lia).
  pose proof (shr_fexp_spec m2 e' loc_Exact Hm2) as H2.
  destruct (shr_fexp prec emax m2 e' loc_Exact) as [mrs'' e''].
  destruct H2 as [Hm3 Hd3]; [lia|].
  destruct (shr_m mrs'') as [|m3|m3]; try lia.
  destruct (e'' <=? emax - prec); simpl; [|done].
  split; [done|]. simpl in Hd3. lia.
Qed.

Lemma iter_xO_spec (p d : positive) :
  Zpos (Pos.iter xO p d) = Zpos p * 2 ^ Zpos d.
Proof.
  induction d as [|d IH] using Pos.peano_ind.
  - simpl. lia.
  - rewrite Pos.iter_succ, Pos2Z.inj_xO, IH, Pos2Z.inj_succ, Z.pow_succ_r by lia. lia.
Qed.

Lemma Zdigits2_mul_pow2 (m k : Z) :
  0 < m -> 0 <= k -> Zdigits2 (m * 2 ^ k) = Zdigits2 m + k.
Proof.
  intros Hm Hk. pose proof (Zdigits2_bounds m Hm) as [Hlo Hhi].
  pose proof (Zdigits2_pos m Hm).
  assert (Hp : 0 < 2 ^ k) by (apply Z.pow_pos_nonneg; lia).
  apply Zdigits2_unique; [|nia].
  replace (Zdigits2 m + k - 1) with (Zdigits2 m - 1 + k) by lia.
  rewrite !Z.pow_add_r by lia. nia.
Qed.

(** Alignment keeps the value and the magnitude. *)
Lemma shl_align_spec (mx : positive) (ex ex' : Z) :
  let '(mz, ez) := shl_align mx ex ex' in
  ez = Z.min ex ex' /\ Zpos mz = Zpos mx * 2 ^ (ex - ez) /\
  Zpos (digits2_pos mz) + ez = Zpos (digits2_pos mx) + ex.
Proof.
  unfold shl_align. destruct (ex' - ex) as [|d|d] eqn:E.
  - rewrite Z.sub_diag. simpl. lia.
  - rewrite Z.sub_diag. simpl. lia.
  - assert (Hd : ex - ex' = Zpos d) by lia.
    rewrite Hd, iter_xO_spec. split; [lia|]. split; [done|].
    change (Zpos (digits2_pos (Pos.iter xO mx d))) with (Zdigits2 (Zpos (Pos.iter xO mx d))).
    rewrite iter_xO_spec, Zdigits2_mul_pow2 by lia. simpl. lia.
Qed.

(** A mantissa of exactly [prec] digits is kept as it is. *)
Lemma binary_round_aux_canonical (s : bool) (m : positive) (e : Z) :
  Zpos (digits2_pos m) = prec -> emin prec emax <= e <= emax - prec ->
  binary_round_aux prec emax s (Zpos m) e loc_Exact = S754_finite s m e.
Proof.
  intros Hd He. unfold binary_round_aux, shr_fexp. simpl Zdigits2.
  assert (Hf : fexp prec emax (Zpos (digits2_pos m) + e) - e = 0).
  { rewrite Hd. unfold fexp, emin, prec, emax in *. lia. }
  rewrite Hf. simpl. rewrite Hf. simpl.
  destruct (Z.leb_spec e (emax - prec)); [done|lia].
Qed.

(** [binary_round] is exact on mantissas of at most [prec] digits. *)
Lemma binary_round_exact (s : bool) (p : positive) :
  Zpos (digits2_pos p) <= prec ->
  exists m e, binary_round prec emax s p 0 = S754_finite s m e /\
    e <= 0 /\ Zpos m = Zpos p * 2 ^ (- e) /\
    Zpos (digits2_pos m) + e = Zpos (digits2_pos p).
Proof.
  intros Hd. unfold binary_round.
  pose proof (shl_align_spec p 0 (fexp prec emax (Zpos (digits2_pos p) + 0))) as Ha.
  destruct (shl_align _ _ _) as [mz ez]. destruct Ha as (He & Hv & Hm).
  assert (Hz : ez = Zpos (digits2_pos p) - prec).
  { rewrite He. unfold fexp, emin, prec, emax in *. lia. }
  exists mz, ez. rewrite binary_round_aux_canonical.
  - split; [done|]. split; [lia|]. split; [|lia]. rewrite Hv. f_equal.
  - lia.
  - unfold emin, prec, emax in *. lia.
Qed.

Lemma binary_round_big (s : bool) (p : positive) :
  big (Zpos (digits2_pos p)) s (binary_round prec emax s p 0).
Proof.
  unfold binary_round.
  pose proof (shl_align_spec p 0 (fexp prec emax (Zpos (digits2_pos p) + 0))) as Ha.
  destruct (shl_align _ _ _) as [mz ez]. destruct Ha as (He & Hv & Hm).
  apply binary_round_aux_big; simpl Zdigits2; [lia| |lia].
  rewrite Hm. unfold emin, prec, emax. lia.
Qed.

(** [float(z)] of a nonzero integer has the sign and at least the
    magnitude of [z]. *)
Lemma of_int_big (z : Z) :
  z <> 0 -> big (Zdigits2 z) (z <? 0) (of_int z).
Proof.
  intros Hz. destruct z as [|p|p]; [done| |]; apply binary_round_big.
Qed.

Lemma big_not_zero (lo : Z) (s : bool) (x : spec_float) :
  big lo s x -> is_zero x = false.
Proof. destruct x; simpl; done. Qed.

Lemma big_weaken (lo lo' : Z) (s : bool) (x : spec_float) :
  lo' <= lo -> big lo s x -> big lo' s x.
Proof. destruct x; simpl; try done. intros ? [? ?]. split; [done|lia]. Qed.

Lemma Zdigits2_mul (a b : Z) :
  0 < a -> 0 < b -> Zdigits2 a + Zdigits2 b - 1 <= Zdigits2 (a * b).
Proof.
  intros Ha Hb.
  pose proof (Zdigits2_bounds a Ha) as [Ha1 _].
  pose proof (Zdigits2_bounds b Hb) as [Hb1 _].
  pose proof (Zdigits2_pos a Ha). pose proof (Zdigits2_pos b Hb).
  apply Zdigits2_ge; [nia|].
  replace (Zdigits2 a + Zdigits2 b - 1 - 1) with ((Zdigits2 a - 1) + (Zdigits2 b - 1)) by lia.
  rewrite Z.pow_add_r by lia.
  assert (0 < 2 ^ (Zdigits2 a - 1)) by (apply Z.pow_pos_nonneg; lia).
  assert (0 < 2 ^ (Zdigits2 b - 1)) by (apply Z.pow_pos_nonneg; lia).
  nia.
Qed.

(** The product of two large floats is large. *)
Lemma mul_big (lo1 lo2 : Z) (s1 s2 : bool) (x y : spec_float) :
  big lo1 s1 x -> big lo2 s2 y -> emin prec emax < lo1 + lo2 - 1 ->
  big (lo1 + lo2 - 1) (xorb s1 s2) (mul x y).
Proof.
  intros Hx Hy Hlo. unfold mul.
  destruct x as [| sx | | sx mx ex], y as [| sy | | sy my ey]; simpl in *; try done.
  - congruence.
  - destruct Hy. congruence.
  - destruct Hx. congruence.
  - destruct Hx as [-> Hx], Hy as [-> Hy].
    pose proof (Zdigits2_mul (Zpos mx) (Zpos my)) as Hm. simpl in Hm.
    apply binary_round_aux_big; simpl Zdigits2; lia.
Qed.

(** The quotient computed by the division core is positive and has at
    least the magnitude of the exact quotient, when that is a normal
    number. *)
Lemma SFdiv_core_binary_spec (m1 m2 : positive) (e1 e2 : Z) :
  emin prec emax + prec <=
    Zpos (digits2_pos m1) + e1 - (Zpos (digits2_pos m2) + e2) ->
  let '(q, e', _) := SFdiv_core_binary prec emax (Zpos m1) e1 (Zpos m2) e2 in
  0 < q /\
  Zpos (digits2_pos m1) + e1 - (Zpos (digits2_pos m2) + e2) <= Zdigits2 q + e'.
Proof.
  intros Hn. unfold SFdiv_core_binary. simpl Zdigits2.
  set (d1 := Zpos (digits2_pos m1)) in *. set (d2 := Zpos (digits2_pos m2)) in *.
  set (e' := Z.min (fexp prec emax (d1 + e1 - (d2 + e2))) (e1 - e2)).
  set (s := e1 - e2 - e').
  assert (He' : e' <= d1 + e1 - (d2 + e2) - prec).
  { unfold e', fexp, emin, prec, emax in *. lia. }
  assert (Hs : 0 <= s) by (unfold s, e'; lia).
  set (m' := match s with Z.pos _ => Z.shiftl (Zpos m1) s | 0 => Zpos m1 | Z.neg _ => 0 end).
  assert (Hm' : m' = Zpos m1 * 2 ^ s).
  { unfold m'. destruct s as [|p|p]; [lia| |lia]. apply Z.shiftl_mul_pow2. lia. }
  pose proof (Z_div_mod m' (Zpos m2) eq_refl) as Hdm.
  destruct (Z.div_eucl m' (Zpos m2)) as [q r]. destruct Hdm as [Hq Hr].
  pose proof (Zdigits2_bounds (Zpos m1) eq_refl) as [H1 _].
  pose proof (Zdigits2_bounds (Zpos m2) eq_refl) as [_ H2].
  simpl Zdigits2 in H1, H2. fold d1 in H1. fold d2 in H2.
  assert (Hd1 : 0 < d1) by (unfold d1; lia).
  assert (Hd2 : 0 < d2) by (unfold d2; lia).
  (* [m'] is at least [2 ^ (d1 + s - d2 - 1)] times the divisor *)
  set (k := d1 + s - d2 - 1).
  assert (Hk : 0 <= k) by (unfold k, s, prec in *; lia).
  assert (Hpk : 0 < 2 ^ k) by (apply Z.pow_pos_nonneg; lia).
  assert (Hlow : 2 ^ k * 2 ^ d2 <= m').
  { rewrite Hm', <- Z.pow_add_r by lia.
    replace (k + d2) with (d1 - 1 + s) by (unfold k; lia).
    rewrite Z.pow_add_r by lia.
    assert (0 < 2 ^ s) by (apply Z.pow_pos_nonneg; lia). nia. }
  assert (Hqk : 2 ^ k <= q) by nia.
  split; [lia|].
  assert (k + 1 <= Zdigits2 q).
  { apply Zdigits2_ge; [lia|]. replace (k + 1 - 1) with k by lia. done. }
  unfold k, s in *. lia.
Qed.

(** Dividing a large float by a finite one of bounded magnitude gives a
    nonzero float with the sign of the quotient. *)
Lemma div_big (lo hi : Z) (s1 s2 : bool) (x : spec_float) (my : positive) (ey : Z) :
  big lo s1 x -> Zpos (digits2_pos my) + ey <= hi ->
  emin prec emax + prec <= lo - hi ->
  big (lo - hi) (xorb s1 s2) (div x (S754_finite s2 my ey)).
Proof.
  intros Hx Hy Hn. unfold div.
  destruct x as [| sx | | sx mx ex]; simpl in Hx; try done.
  - simpl. congruence.
  - destruct Hx as [-> Hx]. unfold SFdiv.
    pose proof (SFdiv_core_binary_spec mx my ex ey) as Hc.
    destruct (SFdiv_core_binary _ _ _ _ _ _) as [[q e'] l].
    destruct Hc as [Hq Hmag]; [lia|].
    apply binary_round_aux_big; [done| |lia].
    unfold emin, prec, emax in *. lia.
Qed.

Lemma big_negative (lo : Z) (x : spec_float) :
  big lo true x -> ltb x zero = true.
Proof. destruct x as [| [] | | [] m e]; simpl; try done; intros []; done. Qed.

Lemma shr_1_even (m : Z) :
  0 <= m ->
  shr_1 (Build_shr_record (2 * m) false false) = Build_shr_record m false false.
Proof. destruct m as [|p|p]; [reflexivity|reflexivity|lia]. Qed.

(** Shifting out zero bits leaves no rounding information behind. *)
Lemma iter_shr_1_exact (p : positive) (m : Z) :
  0 <= m ->
  SpecFloat.iter_pos shr_1 p (Build_shr_record (m * 2 ^ Zpos p) false false)
  = Build_shr_record m false false.
Proof.
  revert m. induction p as [p IH|p IH|]; intros m Hm; cbn [SpecFloat.iter_pos].
  - rewrite pow2_xI.
    replace (m * (2 * (2 ^ Zpos p * 2 ^ Zpos p))) with (2 * (m * 2 ^ Zpos p * 2 ^ Zpos p)) by lia.
    assert (0 <= m * 2 ^ Zpos p) by (apply Z.mul_nonneg_nonneg; lia).
    rewrite shr_1_even by (apply Z.mul_nonneg_nonneg; lia).
    rewrite IH by done. apply IH, Hm.
  - rewrite pow2_xO.
    replace (m * (2 ^ Zpos p * 2 ^ Zpos p)) with (m * 2 ^ Zpos p * 2 ^ Zpos p) by lia.
    assert (0 <= m * 2 ^ Zpos p) by (apply Z.mul_nonneg_nonneg; lia).
    rewrite IH by done. apply IH, Hm.
  - replace (m * 2 ^ 1) with (2 * m) by lia. apply shr_1_even, Hm.
Qed.

(** A mantissa of [prec] digits followed by [k] zero bits rounds to
    itself. *)
Lemma binary_round_aux_exact (s : bool) (m : positive) (k e : Z) :
  Zpos (digits2_pos m) = prec -> 0 <= k ->
  emin prec emax <= e + k <= emax - prec ->
  binary_round_aux prec emax s (Zpos m * 2 ^ k) e loc_Exact = S754_finite s m (e + k).
Proof.
  intros Hd Hk He.
  rewrite <- (binary_round_aux_canonical s m (e + k)) by done.
  unfold binary_round_aux.
  assert (Hs : shr_fexp prec emax (Zpos m * 2 ^ k) e loc_Exact
               = shr_fexp prec emax (Zpos m) (e + k) loc_Exact).
  { unfold shr_fexp. rewrite Zdigits2_mul_pow2 by lia. simpl Zdigits2. rewrite Hd.
    assert (H1 : fexp prec emax (prec + k + e) - e = k).
    { unfold fexp, emin, prec, emax in *. lia. }
    assert (H2 : fexp prec emax (prec + (e + k)) - (e + k) = 0).
    { unfold fexp, emin, prec, emax in *. lia. }
    rewrite H1, H2. simpl shr_record_of_loc. unfold shr at 2.
    destruct k as [|p|p]; [|simpl shr|lia].
    - simpl. f_equal; [f_equal|]; lia.
    - rewrite iter_shr_1_exact by lia. reflexivity. }
  rewrite Hs. reflexivity.
Qed.

(** The float of a positive integer of at most [prec] bits. *)
Lemma binary_round_canonical (s : bool) (p : positive) :
  Zpos (digits2_pos p) <= prec ->
  exists m, binary_round prec emax s p 0
              = S754_finite s m (Zpos (digits2_pos p) - prec) /\
    Zpos (digits2_pos m) = prec /\
    Zpos m = Zpos p * 2 ^ (prec - Zpos (digits2_pos p)).
Proof.
  intros Hd. unfold binary_round.
  pose proof (shl_align_spec p 0 (fexp prec emax (Zpos (digits2_pos p) + 0))) as Ha.
  destruct (shl_align _ _ _) as [mz ez]. destruct Ha as (Hez & Hvz & Hmz).
  assert (Hz : ez = Zpos (digits2_pos p) - prec).
  { rewrite Hez. unfold fexp, emin, prec, emax in *. lia. }
  exists mz. rewrite binary_round_aux_canonical.
  - rewrite Hz. split; [done|]. split; [lia|]. rewrite Hvz, Hz. do 2 f_equal. lia.
  - lia.
  - unfold emin, prec, emax in *. lia.
Qed.

(** Products of small integers are exact. *)
Lemma mul_binary_round (s1 s2 : bool) (a b : positive) :
  Zpos (digits2_pos (a * b)) <= prec ->
  mul (binary_round prec emax s1 a 0) (binary_round prec emax s2 b 0)
  = binary_round prec emax (xorb s1 s2) (a * b) 0.
Proof.
  intros Hc.
  pose proof (Zdigits2_mul (Zpos a) (Zpos b) eq_refl eq_refl) as Hab. simpl Zdigits2 in Hab.
  assert (Ha : Zpos (digits2_pos a) <= prec) by lia.
  assert (Hb : Zpos (digits2_pos b) <= prec) by lia.
  destruct (binary_round_canonical s1 a Ha) as (ma & -> & Hda & Hva).
  destruct (binary_round_canonical s2 b Hb) as (mb & -> & Hdb & Hvb).
  destruct (binary_round_canonical (xorb s1 s2) (a * b) Hc) as (mc & -> & Hdc & Hvc).
  unfold mul, SFmul.
  set (da := Zpos (digits2_pos a)) in *. set (db := Zpos (digits2_pos b)) in *.
  set (dc := Zpos (digits2_pos (a * b))) in *.
  assert (Hk : Zpos (ma * mb) = Zpos mc * 2 ^ (prec + dc - da - db)).
  { rewrite Pos2Z.inj_mul, Hva, Hvb, Hvc, Pos2Z.inj_mul.
    assert (Hp : 2 ^ (prec - da) * 2 ^ (prec - db)
                 = 2 ^ (prec - dc) * 2 ^ (prec + dc - da - db)).
    { rewrite <- !Z.pow_add_r by (unfold prec in *; lia). f_equal. lia. }
    transitivity (Zpos a * Zpos b * (2 ^ (prec - da) * 2 ^ (prec - db))); [ring|].
    rewrite Hp. ring. }
  rewrite Hk, binary_round_aux_exact; unfold emin, prec, emax in *; try lia.
  f_equal. lia.
Qed.

Lemma Zdigits2_mul_le (a b : Z) :
  0 < a -> 0 < b -> Zdigits2 (a * b) <= Zdigits2 a + Zdigits2 b.
Proof.
  intros Ha Hb.
  pose proof (Zdigits2_bounds a Ha) as [_ Ha1].
  pose proof (Zdigits2_bounds b Hb) as [_ Hb1].
  pose proof (Zdigits2_pos a Ha). pose proof (Zdigits2_pos b Hb).
  apply Zdigits2_le; [nia|]. rewrite Z.pow_add_r by lia. nia.
Qed.

Lemma new_location_exact (n : Z) : new_location n 0 = loc_Exact.
Proof. unfold new_location. destruct (Z.even n); reflexivity. Qed.

(** Exact quotients of small integers are exact. *)
Lemma div_binary_round (s1 s2 : bool) (a b : positive) :
  Zpos (digits2_pos (a * b)) <= prec ->
  div (binary_round prec emax s1 (a * b) 0) (binary_round prec emax s2 b 0)
  = binary_round prec emax (xorb s1 s2) a 0.
Proof.
  intros Hc.
  pose proof (Zdigits2_mul (Zpos a) (Zpos b) eq_refl eq_refl) as Hab. simpl Zdigits2 in Hab.
  pose proof (Zdigits2_mul_le (Zpos a) (Zpos b) eq_refl eq_refl) as Hab'.
  simpl Zdigits2 in Hab'.
  assert (Ha : Zpos (digits2_pos a) <= prec) by lia.
  assert (Hb : Zpos (digits2_pos b) <= prec) by lia.
  destruct (binary_round_canonical (xorb s1 s2) a Ha) as (ma & -> & Hda & Hva).
  destruct (binary_round_canonical s2 b Hb) as (mb & -> & Hdb & Hvb).
  destruct (binary_round_canonical s1 (a * b) Hc) as (mc & -> & Hdc & Hvc).
  set (da := Zpos (digits2_pos a)) in *. set (db := Zpos (digits2_pos b)) in *.
  set (dc := Zpos (digits2_pos (a * b))) in *.
  unfold div, SFdiv, SFdiv_core_binary. simpl Zdigits2. rewrite Hdb, Hdc.
  assert (He : Z.min (fexp prec emax (prec + (dc - prec) - (prec + (db - prec))))
                 (dc - prec - (db - prec)) = dc - db - prec).
  { unfold fexp, emin, prec, emax in *. lia. }
  rewrite He.
  replace (dc - prec - (db - prec) - (dc - db - prec)) with prec by lia.
  change prec with 53 at 1. cbv iota.
  rewrite Z.shiftl_mul_pow2 by (unfold prec; lia).
  assert (Hq : Zpos mc * 2 ^ prec = Zpos mb * (Zpos ma * 2 ^ (da + db - dc))).
  { rewrite Hva, Hvb, Hvc, Pos2Z.inj_mul.
    assert (Hp : 2 ^ (prec - dc) * 2 ^ prec
                 = 2 ^ (prec - db) * (2 ^ (prec - da) * 2 ^ (da + db - dc))).
    { rewrite <- !Z.pow_add_r by (unfold prec in *; lia). f_equal. lia. }
    transitivity (Zpos a * Zpos b * (2 ^ (prec - dc) * 2 ^ prec)); [ring|].
    rewrite Hp. ring. }
  pose proof (Z_div_mod (Zpos mc * 2 ^ prec) (Zpos mb) eq_refl) as Hdm.
  destruct (Z.div_eucl (Zpos mc * 2 ^ prec) (Zpos mb)) as [q r].
  destruct Hdm as [Hdm Hr].
  assert (Hqr : q = Zpos ma * 2 ^ (da + db - dc) /\ r = 0).
  { rewrite Hq in Hdm.
    assert (Zpos mb * (Zpos ma * 2 ^ (da + db - dc) - q) = r) by lia.
    assert (Zpos ma * 2 ^ (da + db - dc) - q = 0) by nia. lia. }
  destruct Hqr as [-> ->]. rewrite new_location_exact.
  rewrite binary_round_aux_exact; unfold emin, prec, emax in *; try lia.
  f_equal. lia.
Qed.

Lemma digits2_pos_small (p : positive) (z : Z) :
  Zpos p = Z.abs z -> - 2 ^ 53 < z < 2 ^ 53 -> Zpos (digits2_pos p) <= prec.
Proof.
  intros Hp Hz. apply (Zdigits2_le (Zpos p)); [lia|]. unfold prec. lia.
Qed.

(** Whole numbers times 24, and back. *)
Lemma mul_of_int_24 (n : Z) :
  - 2 ^ 53 < n * 24 < 2 ^ 53 -> mul (of_int n) (of_int 24) = of_int (n * 24).
Proof.
  intros H. destruct n as [|p|p]; [reflexivity| |].
  - apply (mul_binary_round false false p 24), (digits2_pos_small _ (Zpos p * 24)); lia.
  - apply (mul_binary_round true false p 24), (digits2_pos_small _ (Zneg p * 24)); lia.
Qed.

Lemma div_of_int_24 (n : Z) :
  - 2 ^ 53 < n * 24 < 2 ^ 53 -> div (of_int (n * 24)) (of_int 24) = of_int n.
Proof.
  intros H. destruct n as [|p|p]; [reflexivity| |].
  - apply (div_binary_round false false p 24), (digits2_pos_small _ (Zpos p * 24)); lia.
  - apply (div_binary_round true false p 24), (digits2_pos_small _ (Zneg p * 24)); lia.
Qed.

(** Nonzero integers convert to nonzero floats, so a division by one of
    them never raises. *)
Lemma of_int_nonzero (z : Z) : z <> 0 -> is_zero (of_int z) = false.
Proof. intros Hz. eapply big_not_zero, of_int_big, Hz. Qed.

Lemma truediv_of_int (x : spec_float) (z : Z) :
  z <> 0 -> truediv x (of_int z) = Ok (div x (of_int z)).
Proof. intros Hz. unfold truediv. rewrite of_int_nonzero; done. Qed.

Lemma Zdigits2_opp_le (z hi : Z) : z < 0 -> - 2 ^ hi <= z -> 0 <= hi -> Zdigits2 z <= hi + 1.
Proof.
  intros Hz Hlo Hhi. destruct z as [|p|p]; try lia.
  change (Zdigits2 (Z.neg p)) with (Zdigits2 (Zpos p)).
  apply Zdigits2_le; [lia|]. rewrite Z.pow_add_r by lia. lia.
Qed.

(** * Properties of the Session model *)

Example float_of_int_100 :
  of_int 100 = S754_finite false 7036874417766400 (-46).
Proof. reflexivity. Qed.

Example ordinal_max : Calendar.ymd2ord 9999 12 31 = Datetime.MAXORDINAL.
Proof. reflexivity. Qed.

Example monday_2019_01_07 : Datetime.weekday (Calendar.ymd2ord 2019 1 7) = 0.
Proof. reflexivity. Qed.

Lemma taken_seats_nonzero (r : session) :
  seats r <> 0 ->
  _taken_seats_record r =
    Ok (with_taken_seats
          (div (mul (of_int 100) (of_int (len (attendee_ids r)))) (of_int (seats r))) r).
Proof.
  intros Hs. unfold _taken_seats_record.
  destruct (Z.eqb_spec (seats r) 0) as [|_]; [done|].
  rewrite truediv_of_int by done. reflexivity.
Qed.

Lemma mapM_result_ok {A B} (f : A -> result B) (l : list A) :
  (forall x, exists y, f x = Ok y) -> exists k, mapM f l = Ok k /\ length k = length l.
Proof.
  intros Hf. induction l as [|x l [k [Hk Hlen]]]; simpl.
  - exists []. done.
  - destruct (Hf x) as [y Hy]. exists (y :: k). rewrite Hy. simpl. rewrite Hk. simpl.
    split; [done|]. simpl. lia.
Qed.




Example minus_fifty_percent :
  div (mul (of_int 100) (of_int 2)) (of_int (-4)) = SFopp (of_int 50).
Proof. reflexivity. Qed.

Lemma set_hours_ok (r : session) :
  _set_hours_record r = Ok (with_duration (div (hours r) (of_int 24)) r).
Proof. unfold _set_hours_record. rewrite truediv_of_int by done. reflexivity. Qed.


Example three_days_72_hours :
  hours (_get_hours_record (with_duration (of_int 3) session0)) = of_int 72 /\
  duration_round_trip session0 (of_int 3) = Ok (of_int 3) /\
  hours_round_trip session0 (of_int 72) = Ok (of_int 72).
Proof. vm_compute. done. Qed.


Lemma round_half_even_exact (a d : Z) :
  0 < d -> Datetime.round_half_even (a * d) d = a.
Proof.
  intros Hd. unfold Datetime.round_half_even.
  rewrite Z.mod_mul, Z.div_mul by lia.
  destruct d; try lia; reflexivity.
Qed.

(** A whole number of days is converted without rounding. *)
Lemma us_of_days_of_int (n : Z) :
  - 2 ^ 53 < n < 2 ^ 53 ->
  Datetime.us_of_days (of_int n) = Ok (n * Datetime.us_per_day).
Proof.
  intros Hn. destruct n as [|p|p]; [reflexivity| |].
  - destruct (binary_round_exact false p) as (m & e & Hr & He & Hv & _).
    { apply (Zdigits2_le (Zpos p)); [lia|]. unfold prec. lia. }
    unfold of_int. simpl binary_normalize. rewrite Hr. unfold Datetime.us_of_days.
    destruct e as [|q|q]; try lia.
    + f_equal. simpl in Hv. lia.
    + f_equal. rewrite Hv. change (- Z.neg q) with (Zpos q).
      replace (Zpos p * 2 ^ Zpos q * Datetime.us_per_day)
        with (Zpos p * Datetime.us_per_day * 2 ^ Zpos q) by lia.
      apply round_half_even_exact. lia.
  - destruct (binary_round_exact true p) as (m & e & Hr & He & Hv & _).
    { apply (Zdigits2_le (Zpos p)); [lia|]. unfold prec. lia. }
    unfold of_int. simpl binary_normalize. rewrite Hr. unfold Datetime.us_of_days.
    destruct e as [|q|q]; try lia.
    + f_equal. simpl in Hv. lia.
    + f_equal. rewrite Hv. change (- Z.neg q) with (Zpos q).
      replace (Zpos p * 2 ^ Zpos q * Datetime.us_per_day)
        with (Zpos p * Datetime.us_per_day * 2 ^ Zpos q) by lia.
      rewrite round_half_even_exact by lia. lia.
Qed.

Lemma days_minus_one_second (n : Z) :
  Datetime.days (n * Datetime.us_per_day + -1 * Datetime.us_per_second) = n - 1.
Proof.
  unfold Datetime.days, Datetime.us_per_day, Datetime.us_per_second.
  symmetry. apply Z.div_unique with (r := 86400 * 1000000 - 1000000); lia.
Qed.

Lemma date_of_plus (s n : Z) :
  Datetime.date_of
    (s * Datetime.us_per_day + (n * Datetime.us_per_day + -1 * Datetime.us_per_second))
  = s + n - 1.
Proof.
  unfold Datetime.date_of, Datetime.us_per_day, Datetime.us_per_second.
  symmetry. apply Z.div_unique with (r := 86400 * 1000000 - 1000000); lia.
Qed.

(** The end date of a session that lasts a whole number of days. *)
Lemma get_end_date_whole_days (r : session) (s n : Z) :
  start_date r = Some s -> duration r = of_int n -> n <> 0 ->
  in_calendar s -> in_calendar (s + n - 1) ->
  _get_end_date_record r = Ok (with_end_date (Some (s + n - 1)) r).
Proof.
  unfold in_calendar, Datetime.MINORDINAL, Datetime.MAXORDINAL.
  intros Hs Hd Hn Hr1 Hr2. unfold _get_end_date_record.
  rewrite Hs, Hd, of_int_nonzero by done. simpl negb. cbv iota.
  unfold Datetime.mk_timedelta. rewrite us_of_days_of_int by lia. simpl mbind.
  unfold mbind, result_bind.
  rewrite days_minus_one_second.
  destruct (Z.gtb_spec (Z.abs (n - 1)) Datetime.MAXDAYS) as [Hgt|_].
  { unfold Datetime.MAXDAYS in Hgt. lia. }
  unfold Datetime.from_string, Datetime.add. rewrite date_of_plus.
  unfold Datetime.MINORDINAL, Datetime.MAXORDINAL.
  destruct (Z.leb_spec 1 (s + n - 1)); [|lia].
  destruct (Z.leb_spec (s + n - 1) 3652059); [|lia].
  cbn [andb]. rewrite date_of_plus. reflexivity.
Qed.

Lemma days_whole (d : Z) : Datetime.days (d * Datetime.us_per_day) = d.
Proof. unfold Datetime.days. apply Z.div_mul. unfold Datetime.us_per_day, Datetime.us_per_second. lia. Qed.

Lemma set_end_date_present (r : session) (s e : Z) :
  start_date r = Some s -> end_date r = Some e ->
  _set_end_date_record r = Ok (with_duration (of_int (e - s + 1)) r).
Proof.
  intros Hs He. unfold _set_end_date_record. rewrite Hs, He. simpl.
  replace (e * Datetime.us_per_day - s * Datetime.us_per_day)
    with ((e - s) * Datetime.us_per_day) by lia.
  rewrite days_whole. reflexivity.
Qed.


Example friday_minus_monday :
  _set_end_date_record (with_end_date (Some (Calendar.ymd2ord 2019 1 11)) session0)
  = Ok (with_duration (of_int 5)
          (with_end_date (Some (Calendar.ymd2ord 2019 1 11)) session0)).
Proof. reflexivity. Qed.

(** C1 (amended).  For every session with a [start_date], setting
    [duration] to a nonzero whole number of days [n], reading the computed
    [end_date] and writing it back through the inverse reproduces
    [duration = n], the dates staying within the calendar. *)
Theorem end_date_round_trip_whole_days (r : session) (s n : Z) :
  start_date r = Some s -> n <> 0 ->
  in_calendar s -> in_calendar (s + n - 1) ->
  end_date_round_trip r (of_int n) = Ok (of_int n).
Proof.
  intros Hs Hn Hr1 Hr2. unfold end_date_round_trip.
  rewrite (get_end_date_whole_days _ s n) by done. simpl mbind.
  unfold mbind, result_bind.
  rewrite (set_end_date_present _ s (s + n - 1)) by done.
  simpl. f_equal. f_equal. lia.
Qed.

Lemma end_date_round_trip_whole_days_witness :
  end_date_round_trip session0 (of_int 5) = Ok (of_int 5).
Proof.
  apply (end_date_round_trip_whole_days session0 (Calendar.ymd2ord 2019 1 7) 5);
    [reflexivity | lia | vm_compute; split; discriminate | vm_compute; split; discriminate ].
Defined.

(** C1, as stated, fails: a duration of 0 days comes back as 1 day, and a
    duration of 1.5 days comes back as 2 days. *)
Lemma end_date_round_trip_counterexample :
  end_date_round_trip session0 zero = Ok (of_int 1) /\
  eqb (of_int 1) zero = false /\
  end_date_round_trip session0 (div (of_int 3) (of_int 2)) = Ok (of_int 2) /\
  eqb (of_int 2) (div (of_int 3) (of_int 2)) = false.
Proof. vm_compute. repeat split; reflexivity. Qed.

Lemma get_end_date_guard (r : session) :
  start_date r = None \/ is_zero (duration r) = true ->
  _get_end_date_record r = Ok (with_end_date (start_date r) r).
Proof.
  unfold _get_end_date_record. intros [H|H]; rewrite H; [done|].
  rewrite andb_false_r. reflexivity.
Qed.

Lemma date_of_add (s t : Z) :
  Datetime.date_of (s * Datetime.us_per_day + t) = s + Datetime.days t.
Proof.
  unfold Datetime.date_of, Datetime.days.
  rewrite Z.add_comm, Z.div_add by (unfold Datetime.us_per_day, Datetime.us_per_second; lia).
  lia.
Qed.

Lemma get_end_date_general (r : session) (s us : Z) :
  start_date r = Some s -> is_zero (duration r) = false ->
  Datetime.us_of_days (duration r) = Ok us ->
  in_calendar s ->
  in_calendar (Datetime.date_of (s * Datetime.us_per_day + us - Datetime.us_per_second)) ->
  _get_end_date_record r =
    Ok (with_end_date
          (Some (Datetime.date_of (s * Datetime.us_per_day + us - Datetime.us_per_second))) r).
Proof.
  unfold in_calendar, Datetime.MINORDINAL, Datetime.MAXORDINAL.
  intros Hs Hz Hus Hr1 Hr2. unfold _get_end_date_record.
  rewrite Hs, Hz. simpl negb. cbv iota.
  unfold Datetime.mk_timedelta. rewrite Hus. unfold mbind, result_bind.
  replace (s * Datetime.us_per_day + us - Datetime.us_per_second)
    with (s * Datetime.us_per_day + (us + -1 * Datetime.us_per_second)) in * by lia.
  rewrite date_of_add in Hr2.
  destruct (Z.gtb_spec (Z.abs (Datetime.days (us + -1 * Datetime.us_per_second)))
              Datetime.MAXDAYS) as [Hgt|_].
  { unfold Datetime.MAXDAYS in Hgt. lia. }
  unfold Datetime.from_string, Datetime.add.
  rewrite date_of_add.
  unfold Datetime.MINORDINAL, Datetime.MAXORDINAL.
  destruct (Z.leb_spec 1 (s + Datetime.days (us + -1 * Datetime.us_per_second))); [|lia].
  destruct (Z.leb_spec (s + Datetime.days (us + -1 * Datetime.us_per_second)) 3652059); [|lia].
  cbn [andb]. rewrite date_of_add. reflexivity.
Qed.

Lemma weekday_plus_4 (s : Z) : Datetime.weekday s = 0 -> Datetime.weekday (s + 4) = 4.
Proof. unfold Datetime.weekday. intros H. Z.div_mod_to_equations. lia. Qed.


Example one_week_session :
  _get_end_date_record (with_duration (of_int 5) session0)
  = Ok (with_end_date (Some (Calendar.ymd2ord 2019 1 11)) (with_duration (of_int 5) session0)) /\
  Datetime.weekday (Calendar.ymd2ord 2019 1 11) = 4.
Proof. vm_compute. done. Qed.

Lemma assign_instructor_id (v : vals) (r : session) :
  instructor_id (assign v r) = from_option (fun x => x) (instructor_id r) (v_instructor_id v).
Proof. destruct v as [[?|] [?|] [?|] [?|] [?|] [?|]]; reflexivity. Qed.

Lemma assign_attendee_ids (v : vals) (r : session) :
  attendee_ids (assign v r) = from_option (fun x => x) (attendee_ids r) (v_attendee_ids v).
Proof. destruct v as [[?|] [?|] [?|] [?|] [?|] [?|]]; reflexivity. Qed.

Lemma keys_constrained (v : vals) :
  v_instructor_id v <> None \/ v_attendee_ids v <> None ->
  existsb (fun k => bool_decide (k ∈ constrains)) (keys v) = true.
Proof.
  destruct v as [[?|] [?|] [?|] [?|] [?|] [?|]]; simpl; intros [H|H]; try done;
    vm_compute; reflexivity.
Qed.

Lemma check_instructor_raises (r : session) (x : partner) :
  instructor_id r = Some x -> x ∈ attendee_ids r ->
  _check_instructor_not_in_attendees [r] = Raise (ValidationError instructor_message).
Proof.
  intros Hi Hx. unfold _check_instructor_not_in_attendees. simpl.
  unfold _check_instructor_not_in_attendees_record. rewrite Hi. simpl.
  rewrite bool_decide_eq_true_2 by done. reflexivity.
Qed.

(** C7.  For every committed session, a write on [instructor_id] or
    [attendee_ids] after which the instructor is one of the attendees (in
    particular one that sets [instructor_id] to an attendee) fails with the
    validation error "A session's instructor can't be an attendee", and
    the committed state stays what it was. *)
Theorem instructor_attendee_write_rejected
    (db : gmap positive session) (i : positive) (r : session) (v : vals) (x : partner) :
  db !! i = Some r ->
  v_instructor_id v <> None \/ v_attendee_ids v <> None ->
  from_option (fun o => o) (instructor_id r) (v_instructor_id v) = Some x ->
  x ∈ from_option (fun l => l) (attendee_ids r) (v_attendee_ids v) ->
  commit_write db i v
  = (db, Some (ValidationError "A session's instructor can't be an attendee")).
Proof.
  intros Hdb Hk Hi Hx. unfold commit_write, Transaction.write. rewrite Hdb.
  rewrite keys_constrained by done.
  rewrite (check_instructor_raises _ x).
  - reflexivity.
  - rewrite assign_instructor_id. done.
  - rewrite assign_attendee_ids. done.
Qed.

Lemma instructor_attendee_write_rejected_witness :
  commit_write {[ 1%positive := roster ]} 1 (set_instructor 7%positive)
  = ({[ 1%positive := roster ]},
     Some (ValidationError "A session's instructor can't be an attendee")).
Proof.
  apply (instructor_attendee_write_rejected _ 1 roster (set_instructor 7%positive) 7%positive).
  - reflexivity.
  - left. discriminate.
  - reflexivity.
  - simpl. apply list_elem_of_here.
Defined.

Example other_instructor_accepted :
  commit_write {[ 1%positive := roster ]} 1 (set_instructor 9%positive)
  = ({[ 1%positive := with_instructor_id (Some 9%positive) roster ]}, None).
Proof. reflexivity. Qed.

(** * Properties of the Course model *)

Local Open Scope string_scope.

Lemma like_percent (s : string) : Sql.like "%" s = true.
Proof. induction s as [|a s IH]; [reflexivity|]. simpl in *. exact IH. Qed.

Lemma like_literal_char (c : ascii) (p s : string) :
  is_wildcard c = false ->
  Sql.like (String c p) s =
    match s with
    | EmptyString => false
    | String a s' => Ascii.eqb a c && Sql.like p s'
    end.
Proof.
  unfold is_wildcard. intros H.
  apply orb_false_elim in H as [H H3]. apply orb_false_elim in H as [H1 H2].
  cbn [Sql.like]. rewrite H1, H2, H3. reflexivity.
Qed.

Lemma like_literal_prefix (p s : string) :
  wildcard_free p = true -> Sql.like (p ++ "%") s = String.prefix p s.
Proof.
  revert s. induction p as [|c p IH]; intros s Hp.
  - destruct s; [reflexivity|]. apply like_percent.
  - simpl in Hp. apply andb_prop in Hp as [Hc Hp]. apply negb_true_iff in Hc.
    change (String c p ++ "%") with (String c (p ++ "%")).
    rewrite like_literal_char by done.
    destruct s as [|a s]; [reflexivity|]. simpl String.prefix.
    destruct (ascii_dec c a) as [->|Hne].
    + rewrite Ascii.eqb_refl. apply IH, Hp.
    + destruct (Ascii.eqb_spec a c); [congruence|reflexivity].
Qed.

(** C4 (amended).  In [copy], the count of existing copies is the number of
    rows whose name matches, under case-sensitive SQL [LIKE], the pattern
    made of "Copy of ", the source name and "%".  For every source name
    free of the characters [%], [_] and backslash this is the number of
    rows whose name begins with "Copy of " followed by the source name. *)
Theorem copied_count_literal_prefix (rows : list course) (self : course) :
  wildcard_free (name self) = true ->
  copied_count rows self = literal_prefix_count rows (name self).
Proof.
  intros Hw. unfold copied_count, search_count, literal_prefix_count.
  do 2 f_equal. apply List.filter_ext. intros c. simpl.
  rewrite andb_true_r.
  change ("Copy of " ++ name self ++ "%") with (("Copy of " ++ name self) ++ "%").
  apply like_literal_prefix. exact Hw.
Qed.

Lemma copied_count_literal_prefix_witness :
  copied_count unit_courses (mk 1 "Unit 1" None None)
  = literal_prefix_count unit_courses "Unit 1".
Proof.
  apply (copied_count_literal_prefix unit_courses (mk 1 "Unit 1" None None)).
  reflexivity.
Defined.

(** C4, as stated, fails: the [_] of the name "Unit_1" is read as a
    wildcard, so the copy of another course, "Copy of Unit 1", is counted
    although no name begins with "Copy of Unit_1". *)
Lemma copied_count_wildcard_counterexample :
  copied_count unit_courses (mk 2 "Unit_1" None None) = 1%Z /\
  literal_prefix_count unit_courses "Unit_1" = 0%Z /\
  copy_name unit_courses (mk 2 "Unit_1" None None) = "Copy of Unit_1 (1)".
Proof. vm_compute. done. Qed.

Lemma copy_default_name (rows : list course) (self : course)
    (default : option (gmap string value)) :
  copy_default rows self default !! "name" = Some (VStr (copy_name rows self)).
Proof. unfold copy_default. apply lookup_insert_eq. Qed.

Lemma copy_default_other (rows : list course) (self : course)
    (default : option (gmap string value)) (k : string) :
  k <> "name" ->
  copy_default rows self default !! k = from_option (fun d => d) ∅ default !! k.
Proof. intros Hk. unfold copy_default. apply lookup_insert_ne. congruence. Qed.

Lemma read_description (c : course) :
  read c !! "description" ≫= as_text = description c.
Proof.
  unfold read. rewrite lookup_insert_ne by done. rewrite lookup_insert_eq.
  destruct (description c); reflexivity.
Qed.

Lemma read_responsible_id (c : course) :
  read c !! "responsible_id" ≫= as_id = responsible_id c.
Proof.
  unfold read. rewrite !lookup_insert_ne by done. rewrite lookup_insert_eq.
  destruct (responsible_id c); reflexivity.
Qed.

(** What the inherited routine creates from the dictionary of [copy] when
    the caller gave no [default]. *)
Lemma copy_no_default (rows : list course) (self : course) :
  copy rows self None =
    let c := mk (fresh_id rows) (copy_name rows self) (description self)
                (responsible_id self) in
    _ ← check_constraints rows c; Ok ((rows ++ [c])%list, c).
Proof.
  unfold copy, base_copy, create, copy_default. simpl from_option.
  rewrite (lookup_union_Some_l _ _ _ (VStr (copy_name rows self)))
    by apply lookup_insert_eq.
  simpl.
  rewrite !lookup_union_r by (rewrite lookup_insert_ne by done; apply lookup_empty).
  rewrite read_description, read_responsible_id. reflexivity.
Qed.

Lemma check_constraints_ok (rows : list course) (c : course) :
  description c <> Some (name c) ->
  (forall o, In o rows -> name o <> name c) ->
  check_constraints rows c = Ok tt.
Proof.
  intros Hd Hu. unfold check_constraints, _sql_constraints. cbn [List.find violates fst snd].
  replace (Sql.check_ne_fails (column c "name") (column c "description")) with false.
  - replace (existsb _ rows) with false; [reflexivity|].
    symmetry. apply not_true_is_false. intros (o & Ho & Hc)%existsb_exists.
    cbn in Hc. apply String.eqb_eq in Hc. apply (Hu o Ho). congruence.
  - symmetry. cbn. destruct (description c) as [d|]; [|reflexivity].
    apply String.eqb_neq. congruence.
Qed.

Lemma search_count_none (rows : list course) (p : string) :
  (forall o, In o rows -> Sql.like p (name o) = false) ->
  search_count rows [("name", eq_like, p)] = 0%Z.
Proof.
  intros H. unfold search_count.
  replace (List.filter _ rows) with (@nil course); [reflexivity|].
  symmetry. induction rows as [|o rows IH]; [reflexivity|].
  cbn. rewrite (H o) by (left; done). cbn. apply IH. intros o' Ho'. apply H. right. done.
Qed.

Lemma search_count_app (rows1 rows2 : list course) d :
  search_count (rows1 ++ rows2) d = (search_count rows1 d + search_count rows2 d)%Z.
Proof. unfold search_count. rewrite List.filter_app, length_app. lia. Qed.

(** C5.  [copy] hands to the inherited routine the caller's [default] with
    [name] set to "Copy of " and the source name when the count is zero,
    and to that followed by the count in parentheses otherwise, whatever
    name the caller supplied; the other keys are the caller's.  A course
    named "Intro", when no name matches "Copy of Intro%", is given the
    title "Copy of Intro", and once that copy is in the table the title
    "Copy of Intro (1)"; the two copies are created with these names
    (the constraints of the table accepting them: the description copied
    from the source is neither of the two names). *)
Theorem copy_name_spec (rows : list course) (self : course)
    (default : option (gmap string value)) :
  copy rows self default = base_copy rows self (copy_default rows self default) /\
  copy_default rows self default !! "name" =
    Some (VStr (if (copied_count rows self =? 0)%Z
                then "Copy of " ++ name self
                else "Copy of " ++ name self ++ " (" ++ str (copied_count rows self) ++ ")")) /\
  (forall k, k <> "name" ->
     copy_default rows self default !! k = from_option (fun d => d) ∅ default !! k) /\
  (name self = "Intro" ->
   (forall o, In o rows -> Sql.like "Copy of Intro%" (name o) = false) ->
   copy_name rows self = "Copy of Intro" /\
   (forall first, name first = "Copy of Intro" ->
      copy_name (rows ++ [first]) self = "Copy of Intro (1)") /\
   (description self <> Some "Copy of Intro" ->
    description self <> Some "Copy of Intro (1)" ->
    exists first second,
      copy rows self None = Ok ((rows ++ [first])%list, first) /\
      name first = "Copy of Intro" /\
      copy (rows ++ [first]) self None
        = Ok (((rows ++ [first]) ++ [second])%list, second) /\
      name second = "Copy of Intro (1)")).
Proof.
  split; [reflexivity|]. split; [apply copy_default_name|].
  split; [apply copy_default_other|].
  intros Hn Hnone.
  assert (Hc1 : copy_name rows self = "Copy of Intro").
  { unfold copy_name, copied_count. rewrite Hn, search_count_none by done. reflexivity. }
  assert (Hc2 : forall first, name first = "Copy of Intro" ->
                copy_name (rows ++ [first])%list self = "Copy of Intro (1)").
  { intros first Hf. unfold copy_name, copied_count.
    rewrite Hn, search_count_app, search_count_none by done.
    unfold search_count. cbn. rewrite Hf. reflexivity. }
  split; [done|]. split; [done|]. intros Hd1 Hd2.
  set (first := mk (fresh_id rows) "Copy of Intro" (description self) (responsible_id self)).
  set (second := mk (fresh_id (rows ++ [first])%list) "Copy of Intro (1)"
                    (description self) (responsible_id self)).
  exists first, second. split; [|split; [reflexivity|split; [|reflexivity]]].
  - rewrite copy_no_default, Hc1. cbv zeta. fold first.
    rewrite check_constraints_ok; [reflexivity|done|].
    intros o Ho Heq. specialize (Hnone o Ho). rewrite Heq in Hnone. discriminate.
  - rewrite copy_no_default, (Hc2 first) by done. cbv zeta. fold second.
    rewrite check_constraints_ok; [reflexivity|done|].
    intros o [Ho| [<-|[]]]%in_app_or Heq; [|discriminate].
    specialize (Hnone o Ho). rewrite Heq in Hnone. discriminate.
Qed.

Example copy_intro_twice :
  let intro := Course.mk 1 "Intro" (Some "An introduction") None in
  let first := Course.mk 2 "Copy of Intro" (Some "An introduction") None in
  let second := Course.mk 3 "Copy of Intro (1)" (Some "An introduction") None in
  copy [intro] intro None = Ok ([intro; first], first) /\
  copy [intro; first] intro None = Ok ([intro; first; second], second) /\
  copy [intro] intro (Some {[ "name" := VStr "Advanced" ]}) = Ok ([intro; first], first).
Proof. vm_compute. done. Qed.

Lemma check_constraints_inv (rows : list course) (c : course) :
  check_constraints rows c = Ok tt ->
  description c <> Some (name c) /\ forall o, In o rows -> name o <> name c.
Proof.
  unfold check_constraints, _sql_constraints. cbn [List.find violates fst snd].
  destruct (Sql.check_ne_fails _ _) eqn:E1; [discriminate|].
  destruct (existsb _ rows) eqn:E2; [discriminate|]. intros _. split.
  - cbn in E1. destruct (description c) as [d|]; [|done].
    apply String.eqb_neq in E1. congruence.
  - intros o Ho Heq.
    assert (existsb (fun o => Sql.unique_clash (column c "name") (column o "name")) rows = true);
      [|congruence].
    apply existsb_exists. exists o. split; [done|]. cbn. apply String.eqb_eq. done.
Qed.

Lemma fresh_id_gt (rows : list course) (o : course) :
  In o rows -> (id o < fresh_id rows)%positive.
Proof.
  unfold fresh_id. induction rows as [|c rows IH]; [done|].
  intros [->|Ho]; simpl; [lia|]. specialize (IH Ho). lia.
Qed.

Lemma consistent_snoc (rows : list course) (c : course) :
  consistent rows -> id c = fresh_id rows -> check_constraints rows c = Ok tt ->
  consistent (rows ++ [c]).
Proof.
  intros (Hi & Hn & Hd) Hid [Hc Hu]%check_constraints_inv. unfold consistent.
  rewrite !map_app. simpl. split; [|split].
  - apply NoDup_app. split; [done|]. split; [|apply NoDup_singleton].
    intros i Hin [<-|[]]%list_elem_of_In. apply list_elem_of_In, in_map_iff in Hin as (o & Ho1 & Ho2).
    pose proof (fresh_id_gt rows o Ho2). lia.
  - apply NoDup_app. split; [done|]. split; [|apply NoDup_singleton].
    intros n Hin [<-|[]]%list_elem_of_In. apply list_elem_of_In, in_map_iff in Hin as (o & Ho1 & Ho2).
    apply (Hu o Ho2 Ho1).
  - intros o [Ho|[<-|[]]]%in_app_or; [apply Hd, Ho|done].
Qed.

Lemma create_inv (rows rows' : list course) (vals : gmap string value) (c : course) :
  create rows vals = Ok (rows', c) ->
  rows' = (rows ++ [c])%list /\ id c = fresh_id rows /\ check_constraints rows c = Ok tt /\
  vals !! "name" ≫= as_text = Some (name c) /\
  description c = vals !! "description" ≫= as_text.
Proof.
  unfold create. destruct (vals !! "name" ≫= as_text) as [n|]; [|discriminate].
  destruct (check_constraints rows _) as [[]|e] eqn:E; [|discriminate].
  simpl. intros [= <- <-]. done.
Qed.

Lemma create_consistent (rows rows' : list course) (vals : gmap string value) (c : course) :
  consistent rows -> create rows vals = Ok (rows', c) -> consistent rows'.
Proof.
  intros Hc (-> & Hid & Hk & _)%create_inv. apply consistent_snoc; done.
Qed.

Lemma unlink_consistent (rows : list course) (i : positive) :
  consistent rows -> consistent (unlink rows i).
Proof.
  unfold unlink. intros (Hi & Hn & Hd). split; [|split].
  - clear Hn Hd. induction rows as [|c rows IH]; [done|]. simpl in *.
    apply NoDup_cons in Hi as [Hc Hi]. destruct (negb _); [|apply IH, Hi].
    simpl. apply NoDup_cons. split; [|apply IH, Hi].
    intros (o & Ho1 & Ho2%filter_In)%list_elem_of_In%in_map_iff. apply Hc.
    apply list_elem_of_In, in_map_iff. exists o. tauto.
  - clear Hi Hd. induction rows as [|c rows IH]; [done|]. simpl in *.
    apply NoDup_cons in Hn as [Hc Hn]. destruct (negb _); [|apply IH, Hn].
    simpl. apply NoDup_cons. split; [|apply IH, Hn].
    intros (o & Ho1 & Ho2%filter_In)%list_elem_of_In%in_map_iff. apply Hc.
    apply list_elem_of_In, in_map_iff. exists o. tauto.
  - intros c [Hc _]%filter_In. apply Hd, Hc.
Qed.

Section Replace.
Variables (i : positive) (c : course).
Hypothesis Hid : id c = i.

Let repl (o : course) : course := if Pos.eqb (id o) i then c else o.

Lemma replace_ids (rows : list course) : map id (map repl rows) = map id rows.
Proof using Hid.
  induction rows as [|o rows IH]; [done|]. simpl. rewrite IH. f_equal.
  unfold repl. destruct (Pos.eqb_spec (id o) i); congruence.
Qed.

Lemma replace_absent (rows : list course) :
  (forall o, In o rows -> id o <> i) -> map repl rows = rows.
Proof.
  intros H. induction rows as [|o rows IH]; [done|]. simpl. rewrite IH.
  - unfold repl. destruct (Pos.eqb_spec (id o) i) as [He|]; [|done].
    exfalso. apply (H o); [left|]; done.
  - intros o' Ho'. apply H. right. done.
Qed.

Lemma replace_names (rows : list course) :
  NoDup (map id rows) -> NoDup (map name rows) ->
  (forall o, In o rows -> id o <> i -> name o <> name c) ->
  NoDup (map name (map repl rows)).
Proof using Hid.
  induction rows as [|o rows IH]; [done|]. simpl.
  intros [Hi1 Hi2]%NoDup_cons [Hn1 Hn2]%NoDup_cons Hu.
  assert (Hrest : forall o', In o' rows -> id o' <> id o).
  { intros o' Ho' He. apply Hi1, list_elem_of_In, in_map_iff. exists o'. done. }
  apply NoDup_cons. unfold repl at 1. destruct (Pos.eqb_spec (id o) i) as [He|Hne].
  - rewrite replace_absent by (intros o' Ho'; rewrite <- He; apply Hrest, Ho').
    split; [|done].
    intros (o' & Ho1 & Ho2)%list_elem_of_In%in_map_iff.
    apply (Hu o'); [right; done| |done]. rewrite <- He. apply Hrest, Ho2.
  - split; [|apply IH; [done|done|]; intros o' Ho'; apply Hu; right; done].
    intros (x & Hx1 & (o' & <- & Ho')%in_map_iff)%list_elem_of_In%in_map_iff.
    unfold repl in Hx1. destruct (Pos.eqb_spec (id o') i).
    + apply (Hu o); [left; done|done|done].
    + apply Hn1, list_elem_of_In, in_map_iff. exists o'. done.
Qed.
End Replace.

Lemma write_consistent (rows rows' : list course) (i : positive)
    (vals : gmap string value) :
  consistent rows -> write rows i vals = Ok rows' -> consistent rows'.
Proof.
  intros (Hi & Hn & Hd). unfold write.
  destruct (List.find _ rows) as [old|]; [|discriminate].
  destruct (from_option _ _ _) as [n|]; [|discriminate].
  set (c := mk i n _ _).
  destruct (check_constraints _ c) as [[]|e] eqn:E; [|discriminate].
  simpl. intros [= <-]. apply check_constraints_inv in E as [Hc Hu].
  split; [|split].
  - rewrite replace_ids; done.
  - apply replace_names; [done|done|done|].
    intros o Ho Hne. apply Hu, filter_In. split; [done|].
    apply negb_true_iff, Pos.eqb_neq, Hne.
  - intros x (o & <- & Ho)%in_map_iff. destruct (Pos.eqb (id o) i); [done|apply Hd, Ho].
Qed.

Lemma execute_consistent (rows rows' : list course) (q : request) :
  consistent rows -> execute rows q = Ok rows' -> consistent rows'.
Proof.
  intros Hc. destruct q as [vals|i vals|i default|i]; simpl.
  - destruct (create rows vals) as [[r c]|e] eqn:E; [|discriminate].
    intros [= <-]. eapply create_consistent; done.
  - apply write_consistent, Hc.
  - destruct (List.find _ rows) as [self|]; [|discriminate].
    unfold copy, base_copy.
    destruct (create rows _) as [[r c]|e] eqn:E; [|discriminate].
    intros [= <-]. eapply create_consistent; done.
  - intros [= <-]. apply unlink_consistent, Hc.
Qed.

Lemma commit_consistent (rows : list course) (q : request) :
  consistent rows -> consistent (commit rows q).
Proof.
  intros Hc. unfold commit. destruct (execute rows q) eqn:E; [|done].
  eapply execute_consistent; done.
Qed.

Lemma history_consistent (qs : list request) : consistent (history qs).
Proof.
  unfold history. assert (H0 : consistent []).
  { split; [constructor|split; [constructor|intros ? []]]. }
  revert H0. generalize (@nil course). induction qs as [|q qs IH]; intros rows Hc; [done|].
  simpl. apply IH, commit_consistent, Hc.
Qed.

Lemma create_duplicate_name (rows rows1 : list course)
    (vals1 vals2 : gmap string value) (c1 : course) :
  create rows vals1 = Ok (rows1, c1) ->
  vals2 !! "name" ≫= as_text = Some (name c1) ->
  exists k, create rows1 vals2 = Raise (IntegrityError k) /\
    (vals2 !! "description" ≫= as_text <> Some (name c1) -> k = "name_unique").
Proof.
  intros (-> & _)%create_inv Hn. unfold create. rewrite Hn.
  unfold check_constraints, _sql_constraints. cbn [List.find violates fst snd].
  destruct (Sql.check_ne_fails _ _) eqn:E1.
  - eexists. split; [reflexivity|]. intros Hd. exfalso. cbn in E1.
    destruct (vals2 !! "description" ≫= as_text) as [d|]; [|done].
    apply String.eqb_eq in E1. congruence.
  - replace (existsb _ _) with true; [eexists; split; [reflexivity|done]|].
    symmetry. apply existsb_exists. exists c1. split; [apply in_or_app; right; left; done|].
    cbn. apply String.eqb_refl.
Qed.

Lemma create_name_is_description (rows : list course) (vals : gmap string value)
    (n : string) :
  vals !! "name" ≫= as_text = Some n ->
  vals !! "description" ≫= as_text = Some n ->
  create rows vals = Raise (IntegrityError "name_description_check").
Proof.
  intros Hn Hd. unfold create. rewrite Hn, Hd.
  unfold check_constraints, _sql_constraints. cbn [List.find violates fst snd].
  cbn. rewrite String.eqb_refl. reflexivity.
Qed.

(** C8.  After any sequence of requests the names of the Course table are
    pairwise distinct and no course has its name as description: creating
    a second course with the name of one just created fails at commit, on
    the uniqueness constraint unless the description check fails first,
    and creating a course whose description is its name fails on the
    check constraint. *)
Theorem course_constraints :
  (forall qs, consistent (history qs)) /\
  (forall rows rows1 vals1 vals2 c1,
     create rows vals1 = Ok (rows1, c1) ->
     vals2 !! "name" ≫= as_text = Some (name c1) ->
     exists k, create rows1 vals2 = Raise (IntegrityError k) /\
       (vals2 !! "description" ≫= as_text <> Some (name c1) -> k = "name_unique")) /\
  (forall rows vals n,
     vals !! "name" ≫= as_text = Some n ->
     vals !! "description" ≫= as_text = Some n ->
     create rows vals = Raise (IntegrityError "name_description_check")).
Proof.
  split; [apply history_consistent|].
  split; [apply create_duplicate_name|apply create_name_is_description].
Qed.

Example two_algebra_courses :
  let algebra : gmap string value := {[ "name" := VStr "Algebra" ]} in
  exists rows c, create [] algebra = Ok (rows, c) /\
    create rows algebra = Raise (IntegrityError "name_unique") /\
    history [ReqCreate algebra; ReqCreate algebra] = rows.
Proof. eexists _, _. vm_compute. done. Qed.

(** * Further properties of the Session model *)

Local Open Scope Z_scope.

(** X1.  The seats handler gives no warning exactly when the attendees
    fit in the seats; it gives "Incorrect 'seats' value" exactly when
    [seats] is negative, whatever the attendees, and "Too many attendees"
    exactly when [seats] is not negative and below the attendee count. *)
Theorem verify_valid_seats_cases (self : session) :
  (_verify_valid_seats self = None <-> len (attendee_ids self) <= seats self) /\
  (title <$> _verify_valid_seats self = Some "Incorrect 'seats' value"%string
     <-> seats self < 0) /\
  (title <$> _verify_valid_seats self = Some "Too many attendees"%string
     <-> 0 <= seats self < len (attendee_ids self)).
Proof.
  unfold _verify_valid_seats.
  assert (0 <= len (attendee_ids self)) by (unfold len; lia).
  destruct (Z.ltb_spec (seats self) 0); [|destruct (Z.ltb_spec (seats self) (len (attendee_ids self)))];
    simpl; repeat split; intros; try done; try lia.
Qed.

Lemma mapM_unit_ok {A} (f : A -> result unit) (l : list A) :
  (mapM f l ≫= fun _ => Ok tt) = Ok tt <-> forall x, In x l -> f x = Ok tt.
Proof.
  induction l as [|a l IH]; simpl.
  - split; [intros _ x []|done].
  - destruct (f a) as [[]|e] eqn:E; simpl.
    + destruct (mapM f l) as [k|e] eqn:Ek; simpl in *.
      * split; [|done]. intros _ x [<-|Hx]; [done|]. apply IH; done.
      * split; [done|]. intros H. apply IH. intros x Hx. apply H. right. done.
    + split; [done|]. intros H. specialize (H a (or_introl eq_refl)). congruence.
Qed.

Lemma check_record_ok (r : session) :
  _check_instructor_not_in_attendees_record r = Ok tt <-> instructor_apart r.
Proof.
  unfold _check_instructor_not_in_attendees_record, instructor_apart.
  destruct (instructor_id r) as [i|]; simpl.
  - destruct (bool_decide_reflect (i ∈ attendee_ids r)) as [Hin|Hnin].
    + split; [done|]. intros H. exfalso. apply (H i); done.
    + split; [|done]. intros _ x [= <-]. done.
  - split; [|done]. intros _ x. done.
Qed.

Lemma check_record_error (r : session) (e : exception) :
  _check_instructor_not_in_attendees_record r = Raise e ->
  e = ValidationError "A session's instructor can't be an attendee".
Proof.
  unfold _check_instructor_not_in_attendees_record.
  destruct (_ && _); [|done]. intros [= <-]. reflexivity.
Qed.

Lemma mapM_error {A B} (f : A -> result B) (l : list A) (e : exception) :
  mapM f l = Raise e -> exists x, In x l /\ f x = Raise e.
Proof.
  induction l as [|a l IH]; simpl; [done|].
  destruct (f a) as [b|e'] eqn:E; simpl.
  - destruct (mapM f l) as [k|e''] eqn:Ek; simpl; [done|].
    intros [= ->]. destruct (IH eq_refl) as (x & Hx & Hf). exists x. split; [right|]; done.
  - intros [= ->]. exists a. split; [left|]; done.
Qed.

(** X3.  On a recordset, the instructor check passes exactly when no
    record has its instructor among its attendees; when it fails, it is
    with the validation error of the message, and no other error. *)
Theorem check_instructor_sound_complete (self : list session) :
  (_check_instructor_not_in_attendees self = Ok tt
     <-> forall r, In r self -> instructor_apart r) /\
  (forall e, _check_instructor_not_in_attendees self = Raise e ->
     e = ValidationError "A session's instructor can't be an attendee").
Proof.
  split.
  - unfold _check_instructor_not_in_attendees. rewrite mapM_unit_ok.
    split; intros H r Hr; apply check_record_ok, H, Hr.
  - intros e. unfold _check_instructor_not_in_attendees.
    destruct (mapM _ self) as [k|e'] eqn:E; simpl; [done|]. intros [= ->].
    apply mapM_error in E as (x & _ & Hx). eapply check_record_error, Hx.
Qed.

Lemma keys_unconstrained (v : vals) :
  v_instructor_id v = None -> v_attendee_ids v = None ->
  existsb (fun k => bool_decide (k ∈ constrains)) (keys v) = false.
Proof.
  destruct v as [[?|] [?|] [?|] [?|] [?|] [?|]]; simpl; intros H1 H2; try done;
    vm_compute; reflexivity.
Qed.



Lemma write_inv (r r' : session) (v : vals) :
  Transaction.write r v = Ok r' ->
  r' = assign v r /\
  (v_instructor_id v <> None \/ v_attendee_ids v <> None -> instructor_apart r').
Proof.
  unfold Transaction.write.
  destruct (existsb _ (keys v)) eqn:Ek.
  - destruct (_check_instructor_not_in_attendees [assign v r]) as [[]|e] eqn:Ec; [|done].
    simpl. intros [= <-]. split; [done|]. intros _.
    unfold _check_instructor_not_in_attendees in Ec.
    apply mapM_unit_ok with (x := assign v r) in Ec; [|left; done].
    apply check_record_ok, Ec.
  - intros [= <-]. split; [done|]. intros [H|H]; exfalso.
    + rewrite (keys_constrained v) in Ek; [done|left; done].
    + rewrite (keys_constrained v) in Ek; [done|right; done].
Qed.

(** X4.  If no committed session has its instructor among its attendees,
    none has after a write request, accepted or rejected. *)
Theorem commit_write_keeps_instructor_apart (db : gmap positive session) (i : positive)
    (v : vals) :
  (forall j r, db !! j = Some r -> instructor_apart r) ->
  forall j r, (commit_write db i v).1 !! j = Some r -> instructor_apart r.
Proof.
  intros Hinv j r'. unfold commit_write.
  destruct (db !! i) as [r|] eqn:Hi; [|apply Hinv].
  destruct (Transaction.write r v) as [r1|e] eqn:Hw; [|apply Hinv]. simpl.
  destruct (decide (i = j)) as [<-|Hne].
  - rewrite lookup_insert_eq. intros [= <-].
    apply write_inv in Hw as [-> Hc].
    destruct (v_instructor_id v) as [o|] eqn:E1; [apply Hc; left; congruence|].
    destruct (v_attendee_ids v) as [l|] eqn:E2; [apply Hc; right; congruence|].
    intros x. rewrite assign_instructor_id, assign_attendee_ids, E1, E2. simpl.
    apply (Hinv i r Hi).
  - rewrite lookup_insert_ne by done. apply Hinv.
Qed.

Lemma commit_write_keeps_instructor_apart_witness :
  instructor_apart (with_instructor_id (Some 9%positive) roster).
Proof.
  apply (commit_write_keeps_instructor_apart {[ 1%positive := roster ]} 1
           (set_instructor 9%positive)) with (j := 1%positive).
  - intros j r [<- <-]%lookup_singleton_Some x Hx. discriminate.
  - reflexivity.
Defined.

Lemma of_int_pos (p : positive) : of_int (Zpos p) = binary_round prec emax false p 0.
Proof. reflexivity. Qed.



Lemma of_int_small_big (z : Z) (hi : Z) :
  z <> 0 -> - 2 ^ hi <= z <= 2 ^ hi -> 0 <= hi < 53 ->
  exists m e, of_int z = S754_finite (z <? 0) m e /\ Zpos (digits2_pos m) + e <= hi + 1.
Proof.
  intros Hz Hb Hhi.
  assert (Hp : forall p, Zpos p <= 2 ^ hi -> Zpos (digits2_pos p) <= hi + 1).
  { intros p Hp. apply (Zdigits2_le (Zpos p)); [lia|]. rewrite Z.pow_add_r by lia. lia. }
  destruct z as [|p|p]; [done| |].
  - destruct (binary_round_exact false p) as (m & e & Hr & _ & _ & Hd).
    { specialize (Hp p ltac:(lia)). unfold prec. lia. }
    exists m, e. split; [exact Hr|]. rewrite Hd. apply Hp. lia.
  - destruct (binary_round_exact true p) as (m & e & Hr & _ & _ & Hd).
    { specialize (Hp p ltac:(lia)). unfold prec. lia. }
    exists m, e. split; [exact Hr|]. rewrite Hd. apply Hp. lia.
Qed.



Lemma with_duration_id (r : session) : with_duration (duration r) r = r.
Proof. destruct r; reflexivity. Qed.

Lemma mapM_result_Forall2 {A B} (f : A -> result B) (l : list A) (k : list B) :
  mapM f l = Ok k <-> Forall2 (fun x y => f x = Ok y) l k.
Proof.
  revert k. induction l as [|a l IH]; intros k; simpl.
  - split; [intros [= <-]; constructor|]. intros H. inversion H. done.
  - destruct (f a) as [b|e] eqn:E; simpl.
    + destruct (mapM f l) as [k'|e] eqn:Ek; simpl.
      * split.
        -- intros [= <-]. constructor; [done|]. apply IH. done.
        -- intros H. inversion H as [|? y ? k'' Hy Hk]; subst.
           apply IH in Hk. injection Hk as <-. rewrite E in Hy. injection Hy as <-. reflexivity.
      * split; [done|]. intros H. inversion H as [|? y ? k'' Hy Hk]; subst.
        apply IH in Hk. done.
    + split; [done|]. intros H. inversion H; subst. congruence.
Qed.

Lemma set_end_date_record_total (r : session) :
  exists d, _set_end_date_record r = Ok (with_duration d r).
Proof.
  destruct (start_date r) as [s|] eqn:Hs; [destruct (end_date r) as [e|] eqn:He|].
  - eexists. apply set_end_date_present; done.
  - exists (duration r). rewrite with_duration_id. unfold _set_end_date_record.
    rewrite Hs, He. reflexivity.
  - exists (duration r). rewrite with_duration_id. unfold _set_end_date_record.
    rewrite Hs. reflexivity.
Qed.

(** X7.  The inverse of [end_date] never raises, on any recordset (the
    guard keeps an absent date from the subtraction), and it changes no
    field but [duration]. *)
Theorem set_end_date_never_raises (self : list session) :
  exists out, _set_end_date self = Ok out /\
    Forall2 (fun r r' => exists d, r' = with_duration d r) self out.
Proof.
  induction self as [|r self (out & Hout & Hall)].
  - exists []. split; [reflexivity|constructor].
  - destruct (set_end_date_record_total r) as [d Hd].
    exists (with_duration d r :: out). split.
    + unfold _set_end_date in *. simpl. rewrite Hd. simpl. rewrite Hout. reflexivity.
    + constructor; [eauto|done].
Qed.

Lemma mk_timedelta_error (x : spec_float) (sec : Z) (e : exception) :
  Datetime.mk_timedelta x sec = Raise e -> e = ValueError \/ e = OverflowError.
Proof.
  unfold Datetime.mk_timedelta.
  destruct (Datetime.us_of_days x) as [us|e'] eqn:Eus; simpl.
  - unfold mbind, result_bind. destruct (_ >? _); [|done]. intros [= <-]. tauto.
  - intros [= <-]. destruct x; simpl in Eus; try done; injection Eus as <-; tauto.
Qed.

Lemma datetime_add_error (dt : Datetime.datetime) (td : Datetime.timedelta) (e : exception) :
  Datetime.add (Some dt) td = Raise e -> e = OverflowError.
Proof. unfold Datetime.add. destruct (_ && _); [done|]. intros [= <-]. done. Qed.

Lemma get_end_date_record_error (r : session) (e : exception) :
  _get_end_date_record r = Raise e -> e = ValueError \/ e = OverflowError.
Proof.
  unfold _get_end_date_record. destruct (negb _) eqn:Hg; [done|].
  apply negb_false_iff, andb_prop in Hg as [Hs _].
  destruct (start_date r) as [s|]; [|done].
  destruct (Datetime.mk_timedelta (duration r) (-1)) as [td|e1] eqn:Etd;
    unfold mbind, result_bind; cbv beta iota zeta.
  - unfold Datetime.from_string.
    destruct (Datetime.add (Some (s * Datetime.us_per_day)) td) as [dt|e2] eqn:Ea; [done|].
    intros [= <-]. right. eapply datetime_add_error, Ea.
  - intros [= <-]. eapply mk_timedelta_error, Etd.
Qed.

Lemma get_end_date_record_frame (r r' : session) :
  _get_end_date_record r = Ok r' -> r' = with_end_date (end_date r') r.
Proof.
  unfold _get_end_date_record. destruct (negb _).
  - intros [= <-]. destruct r; reflexivity.
  - destruct (Datetime.mk_timedelta _ _) as [td|]; simpl; [|done].
    destruct (Datetime.add _ _) as [dt|]; simpl; [|done].
    intros [= <-]. destruct r; reflexivity.
Qed.

(** X8.  The forward computation of [end_date] fails only with a
    [ValueError] or an [OverflowError], never with a [TypeError]: with a
    start date, a NaN duration gives [ValueError] and an infinite one
    [OverflowError]; when it succeeds it changes no field but
    [end_date]. *)
Theorem get_end_date_errors (r : session) :
  (forall e, _get_end_date_record r = Raise e -> e = ValueError \/ e = OverflowError) /\
  (start_date r <> None -> duration r = S754_nan ->
   _get_end_date_record r = Raise ValueError) /\
  (start_date r <> None -> (exists sg, duration r = S754_infinity sg) ->
   _get_end_date_record r = Raise OverflowError) /\
  (forall r', _get_end_date_record r = Ok r' -> r' = with_end_date (end_date r') r).
Proof.
  split; [apply get_end_date_record_error|]. split; [|split].
  - intros Hs Hd. unfold _get_end_date_record. rewrite Hd.
    destruct (start_date r); [reflexivity|done].
  - intros Hs [sg Hd]. unfold _get_end_date_record. rewrite Hd.
    destruct (start_date r); [reflexivity|done].
  - intros r'. apply get_end_date_record_frame.
Qed.


Lemma in_calendar_bounds (d : Z) : in_calendar d -> 1 <= d <= 3652059.
Proof. done. Qed.

(** X10.  A session of [n] whole days ends [n - 1] days after it
    starts: for a positive [n] the end date is not before the start date,
    and for a negative [n], which nothing rejects, the end date is at
    least two days before the start date. *)
Theorem end_date_whole_days_order (r : session) (s n : Z) :
  start_date r = Some s -> duration r = of_int n -> n <> 0 ->
  in_calendar s -> in_calendar (s + n - 1) ->
  exists e, (end_date <$> _get_end_date_record r) = Ok (Some e) /\
    e - s + 1 = n /\ (0 < n -> s <= e) /\ (n < 0 -> e < s - 1).
Proof.
  intros Hs Hd Hn H1 H2. exists (s + n - 1).
  rewrite (get_end_date_whole_days r s n) by done. split; [reflexivity|]. lia.
Qed.

Lemma end_date_whole_days_order_witness :
  exists e, (end_date <$> _get_end_date_record (with_duration (of_int (-1)) session0)) = Ok (Some e) /\
    e - Calendar.ymd2ord 2019 1 7 + 1 = -1 /\
    (0 < -1 -> Calendar.ymd2ord 2019 1 7 <= e) /\ (-1 < 0 -> e < Calendar.ymd2ord 2019 1 7 - 1).
Proof.
  apply (end_date_whole_days_order (with_duration (of_int (-1)) session0)
           (Calendar.ymd2ord 2019 1 7) (-1));
    [reflexivity|reflexivity|lia|vm_compute; split; discriminate|vm_compute; split; discriminate].
Defined.

(** X11.  Writing a whole number [n] of days as [24 * n] hours, through
    the inverse of [hours], and recomputing [end_date] gives the start
    date plus [n - 1] days. *)
Theorem end_date_after_whole_hours (r : session) (s n : Z) :
  start_date r = Some s -> n <> 0 ->
  in_calendar s -> in_calendar (s + n - 1) ->
  end_date_after_hours r (of_int (n * 24)) = Ok (Some (s + n - 1)).
Proof.
  intros Hs Hn H1 H2. unfold end_date_after_hours.
  rewrite set_hours_ok. simpl. unfold mbind, result_bind.
  apply in_calendar_bounds in H1 as H1', H2 as H2'.
  rewrite div_of_int_24 by lia.
  rewrite (get_end_date_whole_days _ s n) by done. reflexivity.
Qed.

Lemma end_date_after_whole_hours_witness :
  end_date_after_hours session0 (of_int 48) = Ok (Some (Calendar.ymd2ord 2019 1 8)).
Proof.
  apply (end_date_after_whole_hours session0 (Calendar.ymd2ord 2019 1 7) 2);
    [reflexivity|lia|vm_compute; split; discriminate|vm_compute; split; discriminate].
Defined.

(** X12.  A round trip of [duration] through [end_date] and back gives a
    whole number of days when the session has a start date ([1] for a
    zero duration), and gives [duration] back when it has none. *)
Theorem end_date_round_trip_normalises (r : session) (d d' : spec_float) :
  end_date_round_trip r d = Ok d' ->
  (start_date r = None -> d' = d) /\
  (start_date r <> None -> exists k, d' = of_int k) /\
  (start_date r <> None -> is_zero d = true -> d' = of_int 1).
Proof.
  unfold end_date_round_trip. intros H.
  destruct (_get_end_date_record (with_duration d r)) as [r1|] eqn:E1; [|done].
  simpl in H. unfold mbind, result_bind in H.
  destruct (_set_end_date_record r1) as [r2|] eqn:E2; [|done]. injection H as <-.
  pose proof (get_end_date_record_frame (with_duration d r) r1 E1) as Hr1.
  assert (Hsd : start_date r1 = start_date r) by (rewrite Hr1; reflexivity).
  split; [|split].
  - intros Hs. unfold _set_end_date_record in E2. rewrite Hsd, Hs in E2. simpl in E2.
    injection E2 as <-. rewrite Hr1. reflexivity.
  - intros Hs. destruct (start_date r) as [s|] eqn:Es; [|done].
    assert (He : exists e, end_date r1 = Some e).
    { unfold _get_end_date_record in E1. simpl start_date in E1. rewrite Es in E1.
      simpl in E1. destruct (is_zero d); simpl in E1.
      - injection E1 as <-. eauto.
      - destruct (Datetime.mk_timedelta d (-1)); simpl in E1; [|done].
        destruct (_ && _) in E1; [|done]. injection E1 as <-. eauto. }
    destruct He as [e He].
    rewrite (set_end_date_present r1 s e Hsd He) in E2.
    injection E2 as <-. eauto.
  - intros Hs Hz. destruct (start_date r) as [s|] eqn:Es; [|done].
    rewrite (get_end_date_guard (with_duration d r)) in E1 by (right; exact Hz).
    injection E1 as <-.
    rewrite (set_end_date_present _ s s) in E2; [|exact Es|exact Es].
    replace (s - s + 1) with 1 in E2 by lia. injection E2 as <-. reflexivity.
Qed.

Lemma end_date_round_trip_normalises_witness :
  (start_date session0 = None -> of_int 2 = div (of_int 3) (of_int 2)) /\
  (start_date session0 <> None -> exists k, of_int 2 = of_int k) /\
  (start_date session0 <> None -> is_zero (div (of_int 3) (of_int 2)) = true ->
   of_int 2 = of_int 1).
Proof.
  apply (end_date_round_trip_normalises session0 (div (of_int 3) (of_int 2)) (of_int 2)).
  vm_compute. reflexivity.
Defined.

(** * Further properties of the Course model *)

Local Open Scope string_scope.

Lemma like_percent_step (q s : string) :
  Sql.like (String "%" q) s =
    Sql.like q s
    || match s with EmptyString => false | String _ s' => Sql.like (String "%" q) s' end.
Proof. destruct s; reflexivity. Qed.

Lemma like_underscore (q s : string) :
  Sql.like (String "_" q) s =
    match s with EmptyString => false | String _ s' => Sql.like q s' end.
Proof. destruct s; reflexivity. Qed.

(** Without a backslash in it, a pattern followed by [%] matches all
    that begins with the pattern's own characters. *)
Lemma like_prefix_no_backslash (p s : string) :
  no_backslash p = true -> String.prefix p s = true -> Sql.like (p ++ "%") s = true.
Proof.
  revert s. induction p as [|c p IH]; intros s Hb Hp.
  - apply like_percent.
  - simpl in Hb. apply andb_prop in Hb as [Hc Hb]. apply negb_true_iff in Hc.
    destruct s as [|a s]; [done|]. simpl in Hp.
    destruct (ascii_dec c a) as [<-|]; [|done]. specialize (IH s Hb Hp).
    change (String c p ++ "%") with (String c (p ++ "%")).
    destruct (Ascii.eqb_spec c "%"%char) as [->|H1].
    { rewrite like_percent_step, (like_percent_step _ s), IH. apply orb_true_r. }
    destruct (Ascii.eqb_spec c "_"%char) as [->|H2].
    { rewrite like_underscore. exact IH. }
    rewrite like_literal_char, Ascii.eqb_refl; [exact IH|].
    unfold is_wildcard. rewrite Hc.
    destruct (Ascii.eqb_spec c "%"%char); [done|].
    destruct (Ascii.eqb_spec c "_"%char); done.
Qed.

Lemma filter_length_le {A} (P Q : A -> bool) (l : list A) :
  (forall x, P x = true -> Q x = true) ->
  (length (List.filter P l) <= length (List.filter Q l))%nat.
Proof.
  intros H. induction l as [|x l IH]; [done|]. simpl.
  destruct (P x) eqn:EP.
  - rewrite (H x EP). simpl. lia.
  - destruct (Q x); simpl; lia.
Qed.

(** X13.  For a source name without a backslash, the count [copy] takes
    is at least the number of rows whose name begins with "Copy of " and
    the source name: wildcards in the name can only add to the count. *)
Theorem copied_count_covers_literal_copies (rows : list course) (self : course) :
  no_backslash (Course.name self) = true ->
  literal_prefix_count rows (Course.name self) <= copied_count rows self.
Proof.
  intros Hb. unfold literal_prefix_count, copied_count, search_count.
  apply inj_le, filter_length_le. intros c Hc. simpl. rewrite andb_true_r.
  change ("Copy of " ++ Course.name self ++ "%")
    with (("Copy of " ++ Course.name self) ++ "%").
  apply like_prefix_no_backslash; done.
Qed.

Lemma copied_count_covers_literal_copies_witness :
  literal_prefix_count unit_courses "Unit_1" <= copied_count unit_courses (Course.mk 2 "Unit_1" None None).
Proof.
  apply (copied_count_covers_literal_copies unit_courses (Course.mk 2 "Unit_1" None None)).
  reflexivity.
Defined.

Example backslash_hides_a_copy :
  let rows := [Course.mk 1 "a\b" None None; Course.mk 2 "Copy of a\b" None None] in
  literal_prefix_count rows "a\b" = 1 /\ copied_count rows (Course.mk 1 "a\b" None None) = 0.
Proof. vm_compute. done. Qed.

Lemma create_ok_iff (rows : list course) (vals : gmap string value) :
  (exists rows' c, create rows vals = Ok (rows', c)) <->
  exists n, vals !! "name" ≫= as_text = Some n /\
    vals !! "description" ≫= as_text <> Some n /\
    forall o, In o rows -> Course.name o <> n.
Proof.
  split.
  - intros (rows' & c & H). apply create_inv in H as (_ & _ & Hk & Hn & Hd).
    apply check_constraints_inv in Hk as [Hc Hu].
    exists (Course.name c). split; [done|]. split; [congruence|done].
  - intros (n & Hn & Hd & Hu). unfold create. rewrite Hn.
    rewrite check_constraints_ok; [eauto|done|done].
Qed.

(** X14.  [create] succeeds exactly when a name is given, the description
    is not that name and no row has that name; it then appends one row
    with an id no other row has, and when it fails it is with an
    integrity error. *)
Theorem create_accepts (rows : list course) (vals : gmap string value) :
  ((exists rows' c, create rows vals = Ok (rows', c)) <->
   exists n, vals !! "name" ≫= as_text = Some n /\
     vals !! "description" ≫= as_text <> Some n /\
     forall o, In o rows -> Course.name o <> n) /\
  (forall rows' c, create rows vals = Ok (rows', c) ->
     rows' = (rows ++ [c])%list /\ forall o, In o rows -> Course.id o <> Course.id c) /\
  (forall e, create rows vals = Raise e -> exists k, e = IntegrityError k).
Proof.
  split; [apply create_ok_iff|]. split.
  - intros rows' c (-> & Hid & _)%create_inv. split; [done|].
    intros o Ho. pose proof (fresh_id_gt rows o Ho). lia.
  - intros e. unfold create. destruct (_ ≫= as_text); [|intros [= <-]; eauto].
    unfold check_constraints. destruct (List.find _ _); simpl; [|done].
    intros [= <-]. eauto.
Qed.

Lemma prefix_append (p q : string) : String.prefix p (p ++ q) = true.
Proof.
  induction p as [|c p IH]; [destruct q; reflexivity|]. simpl.
  destruct (ascii_dec c c); [exact IH|done].
Qed.

Lemma prefix_self (p : string) : String.prefix p p = true.
Proof.
  induction p as [|c p IH]; [reflexivity|]. simpl.
  destruct (ascii_dec c c); [exact IH|done].
Qed.

Lemma append_cancel_l (a x y : string) : a ++ x = a ++ y -> x = y.
Proof. induction a as [|c a IH]; simpl; [done|]. intros [= H]. apply IH, H. Qed.

Lemma string_length_append (x y : string) :
  String.length (x ++ y) = (String.length x + String.length y)%nat.
Proof. induction x as [|c x IH]; simpl; [done|]. rewrite IH. done. Qed.

Lemma append_cancel_r (x y z : string) : x ++ z = y ++ z -> x = y.
Proof.
  intros H. assert (Hl : String.length x = String.length y).
  { apply (f_equal String.length) in H. rewrite !string_length_append in H. lia. }
  revert y H Hl. induction x as [|c x IH]; intros [|d y] H Hl; simpl in *; try done.
  injection H as -> H. f_equal. apply IH; [done|lia].
Qed.

Lemma str_inj (a b : Z) : str a = str b -> a = b.
Proof.
  unfold str. intros H. apply DecimalZ.to_int_inj.
  assert (Hn : forall z, Z.to_int z <> Decimal.Pos Decimal.Nil /\
                         Z.to_int z <> Decimal.Neg Decimal.Nil).
  { intros [|p|p]; simpl; split; try done; intros [= Hp];
      apply (DecimalPos.Unsigned.to_uint_nonnil p Hp). }
  assert (Hi : Some (Z.to_int a) = Some (Z.to_int b)).
  { rewrite <- (NilZero.isi (Z.to_int a)), <- (NilZero.isi (Z.to_int b)), H;
      [done|apply Hn..]. }
  congruence.
Qed.

Lemma copy_title_prefix (n : string) (j : nat) :
  String.prefix ("Copy of " ++ n) (copy_title n j) = true.
Proof.
  destruct j as [|j]; [exact (prefix_self ("Copy of " ++ n))|].
  exact (prefix_append ("Copy of " ++ n) (" (" ++ str (Z.of_nat (S j)) ++ ")")).
Qed.

Lemma copy_title_inj (n : string) (j k : nat) :
  copy_title n j = copy_title n k -> j = k.
Proof.
  assert (H0 : forall x : string, n <> n ++ " (" ++ x).
  { intros x H. apply (f_equal String.length) in H.
    rewrite string_length_append in H. simpl in H. lia. }
  destruct j as [|j], k as [|k]; cbn [copy_title]; intros H; try done.
  - exfalso. apply (append_cancel_l "Copy of ") in H. eapply H0, H.
  - exfalso. apply (append_cancel_l "Copy of ") in H. eapply H0. symmetry. exact H.
  - apply (append_cancel_l "Copy of "), append_cancel_l, (append_cancel_l " (") in H.
    apply append_cancel_r, str_inj in H. lia.
Qed.

Lemma search_count_all (rows : list course) (p : string) :
  (forall o, In o rows -> Sql.like p (Course.name o) = true) ->
  search_count rows [("name", eq_like, p)] = Z.of_nat (length rows).
Proof.
  intros H. unfold search_count. f_equal. f_equal.
  induction rows as [|o rows IH]; [reflexivity|].
  cbn. rewrite (H o) by (left; done). cbn. f_equal. apply IH.
  intros o' Ho'. apply H. right. done.
Qed.

Section Copies.
Variables (rows : list course) (self : course).
Hypothesis Hw : wildcard_free (Course.name self) = true.
Hypothesis Hrows : forall o, In o rows ->
  String.prefix ("Copy of " ++ Course.name self) (Course.name o) = false.
Hypothesis Hdesc : forall d, description self = Some d ->
  String.prefix ("Copy of " ++ Course.name self) d = false.

Let n := Course.name self.

Lemma like_copy_pattern (s : string) :
  Sql.like ("Copy of " ++ n ++ "%") s = String.prefix ("Copy of " ++ n) s.
Proof using Hw.
  change ("Copy of " ++ n ++ "%") with (("Copy of " ++ n) ++ "%").
  apply like_literal_prefix. exact Hw.
Qed.

Lemma copy_name_after (new : list course) :
  map Course.name new = map (copy_title n) (seq 0 (length new)) ->
  copy_name (rows ++ new) self = copy_title n (length new).
Proof using Hw Hrows.
  intros Hnew. unfold copy_name, copied_count. fold n.
  rewrite search_count_app, search_count_none, search_count_all.
  - destruct (length new) as [|k] eqn:E; [reflexivity|].
    replace (0 + Z.of_nat (S k) =? 0)%Z with false by (symmetry; apply Z.eqb_neq; lia).
    reflexivity.
  - intros o Ho. rewrite like_copy_pattern.
    apply (in_map Course.name) in Ho. rewrite Hnew in Ho.
    apply in_map_iff in Ho as (j & <- & _). apply copy_title_prefix.
  - intros o Ho. rewrite like_copy_pattern. apply Hrows, Ho.
Qed.

(** The next copy when the table holds the first [length new] copies. *)
Lemma copy_next (new : list course) :
  map Course.name new = map (copy_title n) (seq 0 (length new)) ->
  let c := Course.mk (fresh_id (rows ++ new)) (copy_title n (length new))
             (description self) (responsible_id self) in
  copy (rows ++ new) self None = Ok (((rows ++ new) ++ [c])%list, c).
Proof using Hw Hrows Hdesc.
  intros Hnew c. rewrite copy_no_default, copy_name_after by done. cbv zeta. fold c.
  rewrite check_constraints_ok; [reflexivity| |].
  - simpl. intros Hd. specialize (Hdesc _ Hd). rewrite copy_title_prefix in Hdesc. done.
  - simpl. intros o [Ho|Ho]%in_app_or Heq.
    + specialize (Hrows o Ho). rewrite Heq, copy_title_prefix in Hrows. done.
    + apply (in_map Course.name) in Ho. rewrite Hnew in Ho.
      apply in_map_iff in Ho as (j & Hj & Hin). rewrite Heq in Hj.
      apply copy_title_inj in Hj. apply in_seq in Hin. lia.
Qed.

Lemma copy_times_names (k : nat) :
  exists new, copy_times k rows self = Ok (rows ++ new)%list /\
    map Course.name new = map (copy_title n) (seq 0 k) /\ length new = k.
Proof using Hw Hrows Hdesc.
  induction k as [|k (new & Hc & Hn & Hl)].
  - exists []. rewrite app_nil_r. done.
  - pose proof (copy_next new) as Hnext. rewrite Hl in Hnext. specialize (Hnext Hn).
    cbv zeta in Hnext.
    eexists (new ++ [_])%list. split; [|split].
    + simpl. rewrite Hc. simpl. rewrite Hnext. simpl. rewrite <- app_assoc. reflexivity.
    + rewrite map_app, seq_S, map_app, Hn. reflexivity.
    + rewrite length_app. simpl. lia.
Qed.

End Copies.

(** X16.  For a source name free of [%], [_] and backslash, in a table
    where no name (and not the source's description) begins with
    "Copy of " and that name, [k] copies in a row all succeed and are
    named "Copy of N", "Copy of N (1)", ..., "Copy of N (k-1)". *)
Theorem copies_are_numbered (rows : list course) (self : course) (k : nat) :
  wildcard_free (Course.name self) = true ->
  (forall o, In o rows ->
     String.prefix ("Copy of " ++ Course.name self) (Course.name o) = false) ->
  (forall d, description self = Some d ->
     String.prefix ("Copy of " ++ Course.name self) d = false) ->
  exists new, copy_times k rows self = Ok (rows ++ new)%list /\
    map Course.name new = map (copy_title (Course.name self)) (seq 0 k).
Proof.
  intros Hw Hr Hd. destruct (copy_times_names rows self Hw Hr Hd k) as (new & H1 & H2 & _).
  eauto.
Qed.

Lemma copies_are_numbered_witness :
  exists new,
    copy_times 3 algebra_courses (Course.mk 1 "Algebra" (Some "Groups and rings") None)
      = Ok (algebra_courses ++ new)%list /\
    map Course.name new = ["Copy of Algebra"; "Copy of Algebra (1)"; "Copy of Algebra (2)"].
Proof.
  apply (copies_are_numbered algebra_courses
           (Course.mk 1 "Algebra" (Some "Groups and rings") None) 3).
  - reflexivity.
  - intros o [<-|[]]. reflexivity.
  - intros d [= <-]. reflexivity.
Defined.

Lemma unlink_fresh (rows : list course) (i : positive) :
  (forall o, In o rows -> Course.id o <> i) -> unlink rows i = rows.
Proof.
  intros H. unfold unlink. induction rows as [|o rows IH]; [reflexivity|]. simpl.
  destruct (Pos.eqb_spec (Course.id o) i) as [He|_].
  - exfalso. apply (H o); [left|]; done.
  - simpl. f_equal. apply IH. intros o' Ho'. apply H. right. done.
Qed.

Lemma unlink_app (l1 l2 : list course) (i : positive) :
  unlink (l1 ++ l2) i = (unlink l1 i ++ unlink l2 i)%list.
Proof. apply List.filter_app. Qed.

(** X17.  Under the same conditions, after two copies and the deletion
    of the first one, a third copy fails on the uniqueness constraint: the
    one copy left is counted, and the title "Copy of N (1)" it already
    bears is computed again. *)
Theorem copy_after_unlink_collides (rows : list course) (self : course) :
  wildcard_free (Course.name self) = true ->
  (forall o, In o rows ->
     String.prefix ("Copy of " ++ Course.name self) (Course.name o) = false) ->
  (forall d, description self = Some d ->
     String.prefix ("Copy of " ++ Course.name self) d = false) ->
  exists first second,
    copy rows self None = Ok ((rows ++ [first])%list, first) /\
    copy (rows ++ [first]) self None = Ok (((rows ++ [first]) ++ [second])%list, second) /\
    unlink ((rows ++ [first]) ++ [second]) (Course.id first) = (rows ++ [second])%list /\
    copy (rows ++ [second]) self None = Raise (IntegrityError "name_unique").
Proof.
  intros Hw Hr Hd.
  pose proof (copy_next rows self Hw Hr Hd [] eq_refl) as H1.
  cbv zeta in H1. rewrite app_nil_r in H1. simpl length in H1.
  set (first := Course.mk (fresh_id rows) (copy_title (Course.name self) 0)
                  (description self) (responsible_id self)) in *.
  pose proof (copy_next rows self Hw Hr Hd [first] eq_refl) as H2.
  cbv zeta in H2. simpl length in H2.
  set (second := Course.mk (fresh_id (rows ++ [first])) (copy_title (Course.name self) 1)
                   (description self) (responsible_id self)) in *.
  exists first, second. split; [exact H1|]. split; [exact H2|]. split.
  - rewrite !unlink_app, unlink_fresh.
    + unfold unlink. simpl. rewrite Pos.eqb_refl. simpl.
      destruct (Pos.eqb_spec (fresh_id (rows ++ [first])) (fresh_id rows)) as [He|_];
        [|simpl; rewrite app_nil_r; reflexivity].
      exfalso. pose proof (fresh_id_gt (rows ++ [first]) first) as Hlt.
      specialize (Hlt ltac:(apply in_or_app; right; left; done)). simpl in Hlt. lia.
    + intros o Ho. pose proof (fresh_id_gt rows o Ho). simpl. lia.
  - assert (Hname : copy_name (rows ++ [second]) self = copy_title (Course.name self) 1).
    { unfold copy_name, copied_count.
      rewrite search_count_app, search_count_none, search_count_all.
      - reflexivity.
      - intros o [<-|[]]. rewrite like_copy_pattern by done. apply copy_title_prefix.
      - intros o Ho. rewrite like_copy_pattern by done. apply Hr, Ho. }
    rewrite copy_no_default, Hname. cbv zeta.
    unfold check_constraints, _sql_constraints. cbn [List.find violates fst snd].
    replace (Sql.check_ne_fails _ _) with false.
    + replace (existsb _ _) with true; [reflexivity|].
      symmetry. apply existsb_exists. exists second.
      split; [apply in_or_app; right; left; done|]. cbn. apply String.eqb_refl.
    + symmetry. cbn. destruct (description self) as [d|] eqn:Ed; [|reflexivity].
      apply String.eqb_neq. intros Heq. specialize (Hd d eq_refl).
      assert (Ht : String.prefix ("Copy of " ++ Course.name self) d = true);
        [|congruence].
      rewrite <- Heq. exact (copy_title_prefix (Course.name self) 1).
Qed.

Lemma copy_after_unlink_collides_witness :
  exists first second,
    copy algebra_courses (Course.mk 1 "Algebra" (Some "Groups and rings") None) None
      = Ok ((algebra_courses ++ [first])%list, first) /\
    copy (algebra_courses ++ [first]) (Course.mk 1 "Algebra" (Some "Groups and rings") None) None
      = Ok (((algebra_courses ++ [first]) ++ [second])%list, second) /\
    unlink ((algebra_courses ++ [first]) ++ [second]) (Course.id first)
      = (algebra_courses ++ [second])%list /\
    copy (algebra_courses ++ [second]) (Course.mk 1 "Algebra" (Some "Groups and rings") None) None
      = Raise (IntegrityError "name_unique").
Proof.
  apply (copy_after_unlink_collides algebra_courses
           (Course.mk 1 "Algebra" (Some "Groups and rings") None)).
  - reflexivity.
  - intros o [<-|[]]. reflexivity.
  - intros d [= <-]. reflexivity.
Defined.

Lemma create_fields (rows rows' : list course) (vals : gmap string value) (c : course) :
  create rows vals = Ok (rows', c) ->
  vals !! "name" ≫= as_text = Some (Course.name c) /\
  description c = vals !! "description" ≫= as_text /\
  responsible_id c = vals !! "responsible_id" ≫= as_id.
Proof.
  unfold create. destruct (vals !! "name" ≫= as_text) as [n|]; [|discriminate].
  destruct (check_constraints rows _) as [[]|e] eqn:E; [|discriminate].
  simpl. intros [= <- <-]. done.
Qed.

(** X15.  A successful [copy] appends one row and changes no other: the
    new row has a fresh id, the title computed by [copy] whatever name the
    caller gave, and the caller's description and responsible when given,
    the source's otherwise. *)
Theorem copy_effect (rows rows' : list course) (self c : course)
    (default : option (gmap string value)) :
  copy rows self default = Ok (rows', c) ->
  rows' = (rows ++ [c])%list /\
  (forall o, In o rows -> Course.id o <> Course.id c) /\
  Course.name c = copy_name rows self /\
  description c =
    match from_option (fun d => d) ∅ default !! "description" with
    | Some v => as_text v
    | None => description self
    end /\
  responsible_id c =
    match from_option (fun d => d) ∅ default !! "responsible_id" with
    | Some v => as_id v
    | None => responsible_id self
    end.
Proof.
  intros H. change (copy rows self default)
    with (create rows (copy_default rows self default ∪ read self)) in H.
  pose proof (create_inv _ _ _ _ H) as (-> & Hid & _).
  apply create_fields in H as (Hn & Hd & Hr).
  split; [done|]. split; [|split; [|split]].
  - intros o Ho. pose proof (fresh_id_gt rows o Ho). lia.
  - rewrite (lookup_union_Some_l _ _ _ (VStr (copy_name rows self))) in Hn
      by apply copy_default_name.
    simpl in Hn. congruence.
  - rewrite Hd, lookup_union, copy_default_other by done.
    destruct (from_option _ _ default !! "description") as [v|]; simpl.
    + unfold union_with, option_union_with.
      destruct (read self !! "description"); reflexivity.
    + rewrite (left_id None _). apply read_description.
  - rewrite Hr, lookup_union, copy_default_other by done.
    destruct (from_option _ _ default !! "responsible_id") as [v|]; simpl.
    + unfold union_with, option_union_with.
      destruct (read self !! "responsible_id"); reflexivity.
    + rewrite (left_id None _). apply read_responsible_id.
Qed.

Lemma copy_effect_witness :
  Course.name intro_copy = copy_name [intro_course] intro_course /\
  description intro_copy = Some "Short" /\
  responsible_id intro_copy = responsible_id intro_course.
Proof.
  destruct (copy_effect [intro_course] [intro_course; intro_copy] intro_course intro_copy
              (Some {[ "description" := VStr "Short"; "name" := VStr "Advanced" ]}))
    as (_ & _ & Hn & Hd & Hr); [reflexivity|].
  split; [exact Hn|]. split; [exact Hd|exact Hr].
Defined.
